(** * Remote Model Registry Workflow: the artifact-copy routine

    A shallow embedding of the three functions of the notebook
    [Remote Model Registry Workflow.py] that copy a run's artifacts to the
    registry workspace ([_get_dbfs_endpoint], [_copy_artifact],
    [copy_artifacts]), together with the library functions they call
    (str methods, [os.path], [posixpath], [os.walk], the mlflow helpers
    [strip_prefix] and [relative_path_to_artifact_path]).

    Python strings are lists of characters.  The local file system and the
    remote REST service are oracles; the notebook's effects (requests sent,
    files opened, lines printed) are recorded in a trace. *)

From Stdlib Require Import List Ascii String Bool Arith Lia.
Import ListNotations.

Set Implicit Arguments.
Set Warnings "-register-all".

(** ** Python strings *)

Definition str := list ascii.

(** A string literal of the source. *)
Definition lit (x : string) : str := list_ascii_of_string x.

Definition chr_slash : ascii := "/"%char.
Definition chr_backslash : ascii := "\"%char.

Fixpoint str_eqb (a b : str) : bool :=
  match a, b with
  | [], [] => true
  | x :: a', y :: b' => Ascii.eqb x y && str_eqb a' b'
  | _, _ => false
  end.

(** [s.startswith(prefix)] *)
Fixpoint startswith (s prefix : str) {struct prefix} : bool :=
  match prefix, s with
  | [], _ => true
  | p :: prefix', c :: s' => Ascii.eqb c p && startswith s' prefix'
  | _ :: _, [] => false
  end.

(** [s.endswith(c)] for a one-character suffix. *)
Definition endswith_chr (s : str) (c : ascii) : bool :=
  match rev s with
  | x :: _ => Ascii.eqb x c
  | [] => false
  end.

(** [sub in s] *)
Fixpoint str_contains (sub s : str) : bool :=
  startswith s sub ||
  match s with
  | [] => false
  | _ :: s' => str_contains sub s'
  end.

Fixpoint drop_while (p : ascii -> bool) (s : str) : str :=
  match s with
  | [] => []
  | c :: s' => if p c then drop_while p s' else s
  end.

(** [s.lstrip(c)] and [s.rstrip(c)] for a one-character set. *)
Definition lstrip (c : ascii) (s : str) : str := drop_while (Ascii.eqb c) s.
Definition rstrip (c : ascii) (s : str) : str :=
  rev (drop_while (Ascii.eqb c) (rev s)).

(** [s.split(sep)], with the separators given by a predicate; the result
    always has at least one field. *)
Fixpoint split_on (p : ascii -> bool) (s : str) : list str :=
  match s with
  | [] => [[]]
  | c :: s' =>
      if p c then [] :: split_on p s'
      else match split_on p s' with
           | [] => [[c]]
           | w :: ws => (c :: w) :: ws
           end
  end.

(** [sep.join(fields)] *)
Fixpoint join_with (sep : str) (fields : list str) : str :=
  match fields with
  | [] => []
  | [w] => w
  | w :: ws => w ++ sep ++ join_with sep ws
  end.

(** [s.replace(a, b)] for single characters. *)
Definition replace_chr (a b : ascii) (s : str) : str :=
  map (fun c => if Ascii.eqb c a then b else c) s.

Definition nonempty (s : str) : bool :=
  match s with [] => false | _ :: _ => true end.

(** [x or ''] on a string. *)
Definition str_or_empty (x : str) : str := if nonempty x then x else [].

(** ** Exceptions and results *)

Inductive exn : Type :=
| MlflowException (message : str)
| NameError (name : str)
| ValueError (message : str)
| PyException (message : str)
| OSError (message : str)
| OtherError (description : str).

(** ** mlflow.utils.string_utils.strip_prefix *)

Definition strip_prefix (original prefix : str) : str :=
  if startswith original prefix then skipn (List.length prefix) original
  else original.

(** ** The host's path module

    [os.path] is [posixpath] on a POSIX host and [ntpath] on Windows.  The
    Windows functions are modelled for paths without a drive letter or UNC
    share, which is what every path built by this notebook is: they all start
    with the literal [/dbfs/].  The drive that [ntpath.abspath] would prepend
    is the same for both arguments of [relpath] and is left out. *)

Inductive host : Type := Posix | Nt.

(** [os.sep] *)
Definition os_sep (h : host) : ascii :=
  match h with Posix => chr_slash | Nt => chr_backslash end.

(** Membership in [seps]: [os.sep] and, on Windows, [os.altsep]. *)
Definition is_sep (h : host) (c : ascii) : bool :=
  match h with
  | Posix => Ascii.eqb c chr_slash
  | Nt => Ascii.eqb c chr_backslash || Ascii.eqb c chr_slash
  end.

Definition starts_with_sep (h : host) (p : str) : bool :=
  match p with c :: _ => is_sep h c | [] => false end.

Definition ends_with_sep (h : host) (p : str) : bool :=
  match rev p with c :: _ => is_sep h c | [] => false end.

(** [os.path.join(a, b)] *)
Definition os_path_join (h : host) (a b : str) : str :=
  if starts_with_sep h b then b
  else if negb (nonempty a) || ends_with_sep h a then a ++ b
  else a ++ [os_sep h] ++ b.

(** [posixpath.join(a, b)] *)
Definition posixpath_join (a b : str) : str := os_path_join Posix a b.

(** [os.path.basename(p)]: what follows the last separator. *)
Fixpoint take_while (p : ascii -> bool) (s : str) : str :=
  match s with
  | [] => []
  | c :: s' => if p c then c :: take_while p s' else []
  end.

Definition os_path_basename (h : host) (p : str) : str :=
  rev (take_while (fun c => negb (is_sep h c)) (rev p)).

(** [os.path.isabs(p)] *)
Definition os_path_isabs (h : host) (p : str) : bool := starts_with_sep h p.

Definition dot : str := lit ".".
Definition dotdot : str := lit "..".

(** One iteration of the component loop of [normpath]: empty and [.]
    components are skipped, [..] removes the previous component (or is kept
    in front of a relative path, or dropped at the root). *)
Definition norm_step (rooted : bool) (new_comps : list str) (comp : str)
  : list str :=
  if str_eqb comp [] || str_eqb comp dot then new_comps
  else if negb (str_eqb comp dotdot)
          || (negb rooted && negb (match new_comps with [] => false | _ => true end))
          || (match rev new_comps with
              | l :: _ => str_eqb l dotdot
              | [] => false
              end)
       then new_comps ++ [comp]
       else removelast new_comps.

(** [os.path.normpath(path)] *)
Definition os_path_normpath (h : host) (path : str) : str :=
  match h with
  | Posix =>
      if negb (nonempty path) then dot
      else
        let initial_slashes :=
          if startswith path (lit "/") then
            if startswith path (lit "//") && negb (startswith path (lit "///"))
            then 2 else 1
          else 0 in
        let comps :=
          fold_left (norm_step (0 <? initial_slashes))
                    (split_on (Ascii.eqb chr_slash) path) [] in
        let path := repeat chr_slash initial_slashes ++ join_with (lit "/") comps in
        if nonempty path then path else dot
  | Nt =>
      let path := replace_chr chr_slash chr_backslash path in
      let rooted := startswith path (lit "\") in
      let prefix := if rooted then lit "\" else [] in
      let path := if rooted then lstrip chr_backslash path else path in
      let comps :=
        fold_left (norm_step rooted)
                  (split_on (Ascii.eqb chr_backslash) path) [] in
      let comps :=
        if negb rooted && negb (match comps with [] => false | _ => true end)
        then [dot] else comps in
      prefix ++ join_with (lit "\") comps
  end.

(** [os.path.abspath(path)], with [cwd] the value of [os.getcwd()]. *)
Definition os_path_abspath (h : host) (cwd path : str) : str :=
  if os_path_isabs h path then os_path_normpath h path
  else os_path_normpath h (os_path_join h cwd path).

(** ASCII lower-casing, for [ntpath.normcase]. *)
Definition lower_chr (c : ascii) : ascii :=
  let n := nat_of_ascii c in
  if (65 <=? n) && (n <=? 90) then ascii_of_nat (n + 32) else c.

(** [os.path.normcase(s)] *)
Definition os_path_normcase (h : host) (s : str) : str :=
  match h with
  | Posix => s
  | Nt => map lower_chr (replace_chr chr_slash chr_backslash s)
  end.

(** Number of leading components two component lists share, compared up to
    [normcase] (the identity on POSIX, where [relpath] uses [commonprefix]). *)
Fixpoint common_len (h : host) (xs ys : list str) : nat :=
  match xs, ys with
  | x :: xs', y :: ys' =>
      if str_eqb (os_path_normcase h x) (os_path_normcase h y)
      then S (common_len h xs' ys') else 0
  | _, _ => 0
  end.

(** [[x for x in p.split(sep) if x]] *)
Definition path_components (h : host) (p : str) : list str :=
  filter nonempty (split_on (Ascii.eqb (os_sep h)) p).

(** [os.path.join] applied to a non-empty list of parts. *)
Definition os_path_join_all (h : host) (parts : list str) : str :=
  match parts with
  | [] => []
  | a :: rest => fold_left (os_path_join h) rest a
  end.

(** [os.path.relpath(path, start)] *)
Definition os_path_relpath (h : host) (cwd path start : str) : exn + str :=
  if negb (nonempty path) then inl (ValueError (lit "no path specified"))
  else
    let absolute p :=
      match h with
      | Posix => os_path_abspath h cwd p
      | Nt => os_path_abspath h cwd (os_path_normpath h p)
      end in
    let start_list := path_components h (absolute start) in
    let path_list := path_components h (absolute path) in
    let i := common_len h start_list path_list in
    let rel_list := repeat dotdot (List.length start_list - i) ++ skipn i path_list in
    match rel_list with
    | [] => inr dot
    | _ :: _ => inr (os_path_join_all h rel_list)
    end.

(** ** urllib: percent-encoding

    Strings are taken as their UTF-8 bytes, which is what [quote] encodes and
    what [unquote] decodes. *)

Definition chr_percent : ascii := "%"%char.
Definition chr_colon : ascii := ":"%char.

Definition hex_digit (n : nat) : ascii :=
  nth n (lit "0123456789ABCDEF") "0"%char.

Definition hex_value (c : ascii) : option nat :=
  let n := nat_of_ascii c in
  if (48 <=? n) && (n <=? 57) then Some (n - 48)
  else if (65 <=? n) && (n <=? 70) then Some (n - 55)
  else if (97 <=? n) && (n <=? 102) then Some (n - 87)
  else None.

(** The characters [quote] never encodes: letters, digits and [_.-~]. *)
Definition always_safe (c : ascii) : bool :=
  let n := nat_of_ascii c in
  ((65 <=? n) && (n <=? 90)) || ((97 <=? n) && (n <=? 122))
  || ((48 <=? n) && (n <=? 57))
  || existsb (Ascii.eqb c) (lit "_.-~").

(** [urllib.parse.quote(s)], with its default [safe='/']. *)
Definition quote (s : str) : str :=
  flat_map (fun c =>
              if always_safe c || Ascii.eqb c chr_slash then [c]
              else let n := nat_of_ascii c in
                   [chr_percent; hex_digit (n / 16); hex_digit (n mod 16)]) s.

(** [urllib.parse.unquote(s)] *)
Fixpoint unquote (s : str) : str :=
  match s with
  | [] => []
  | c :: s' =>
      if Ascii.eqb c chr_percent then
        match s' with
        | a :: b :: r =>
            match hex_value a, hex_value b with
            | Some x, Some y => ascii_of_nat (16 * x + y) :: unquote r
            | _, _ => c :: unquote s'
            end
        | _ => c :: unquote s'
        end
      else c :: unquote s'
  end.

Definition upper_chr (c : ascii) : ascii :=
  let n := nat_of_ascii c in
  if (97 <=? n) && (n <=? 122) then ascii_of_nat (n - 32) else c.

(** [urllib.request.pathname2url(p)] on Windows ([nturl2path]). *)
Definition pathname2url (p : str) : exn + str :=
  if negb (existsb (Ascii.eqb chr_colon) p) then
    let p := if startswith p (lit "\\") then lit "\\" ++ p else p in
    let components := split_on (Ascii.eqb chr_backslash) p in
    inr (quote (join_with (lit "/") components))
  else
    match split_on (Ascii.eqb chr_colon) p with
    | [drive; rest] =>
        if 1 <? List.length drive then inl (OSError (lit "Bad path: " ++ p))
        else
          let drive := quote (map upper_chr drive) in
          let components := split_on (Ascii.eqb chr_backslash) rest in
          inr (fold_left
                 (fun path comp =>
                    if nonempty comp then path ++ lit "/" ++ quote comp
                    else path)
                 components (lit "///" ++ drive ++ lit ":"))
    | _ => inl (OSError (lit "Bad path: " ++ p))
    end.

(** ** mlflow.utils.file_utils.relative_path_to_artifact_path *)

Definition relative_path_to_artifact_path (h : host) (cwd path : str)
  : exn + str :=
  match h with
  | Posix => inr path
  | Nt =>
      if str_eqb (os_path_abspath h cwd path) path
      then inl (PyException (lit "This method only works with relative paths."))
      else match pathname2url path with
           | inl e => inl e
           | inr url => inr (unquote url)
           end
  end.

(** ** The local file system

    What the notebook observes of it: directory listings, already split by
    [os.walk] into directory names and other names, whether a path is a
    symbolic link, file sizes and file contents.  [None] stands for the call
    raising [OSError]. *)

Record filesystem : Type := {
  fs_scandir : str -> option (list str * list str);
  fs_islink : str -> bool;
  fs_stat_size : str -> option nat;
  fs_open_rb : str -> option (list ascii);
  fs_getcwd : str
}.

(** One item produced by [os.walk]: [(dirpath, dirnames, filenames)]. *)
Definition walk_entry : Type := (str * list str * list str)%type.

(** The loop of [os.walk] over the sub-directories of [top]. *)
Fixpoint walk_subdirs (h : host) (fs : filesystem)
    (walk : str -> option (list walk_entry)) (top : str) (dirs : list str)
  : option (list walk_entry) :=
  match dirs with
  | [] => Some []
  | dirname :: dirs' =>
      let new_path := os_path_join h top dirname in
      match (if fs_islink fs new_path then Some [] else walk new_path),
            walk_subdirs h fs walk top dirs' with
      | Some here, Some others => Some (here ++ others)
      | _, _ => None
      end
  end.

(** [os.walk(top)], top-down, errors of [scandir] ignored, links not
    followed.  [fuel] bounds the nesting depth explored; [None] is returned
    only when it is exhausted. *)
Fixpoint os_walk (fuel : nat) (h : host) (fs : filesystem) (top : str)
  : option (list walk_entry) :=
  match fuel with
  | 0 => None
  | S fuel' =>
      match fs_scandir fs top with
      | None => Some []
      | Some (dirs, nondirs) =>
          match walk_subdirs h fs (os_walk fuel' h fs) top dirs with
          | Some below => Some ((top, dirs, nondirs) :: below)
          | None => None
          end
      end
  end.

(** ** Requests, replies and the trace of effects *)

Definition host_creds : Type := str.

(** The [data] argument of a request: a string or an open binary file. *)
Inductive payload : Type :=
| DataStr (s : str)
| DataFile (path : str) (content : list ascii).

Record request : Type := {
  rq_host_creds : host_creds;
  rq_endpoint : str;
  rq_method : str;
  rq_data : payload;
  rq_allow_redirects : bool
}.

Inductive reply : Type :=
| Replied
| Raises (e : exn).

Inductive event : Type :=
| EvPrint (line : str)
| EvOpen (path : str)
| EvClose (path : str)
| EvRequest (rq : request) (rp : reply).

(** How a call ends: it returns, it raises, or the model ran out of fuel. *)
Inductive outcome (A : Type) : Type :=
| Returned (a : A)
| Raised (e : exn)
| OutOfFuel.

Arguments Returned {A} a.
Arguments Raised {A} e.
Arguments OutOfFuel {A}.

(** ** The notebook's utilities

    A computation takes the state of the remote service and gives its
    outcome, the new state of the service and the effects it performed, in
    order. *)

Definition M (Remote A : Type) : Type :=
  Remote -> outcome A * Remote * list event.

Definition ret {Remote A : Type} (a : A) : M Remote A :=
  fun r => (Returned a, r, []).

Definition raise {Remote A : Type} (e : exn) : M Remote A :=
  fun r => (Raised e, r, []).

Definition out_of_fuel {Remote A : Type} : M Remote A :=
  fun r => (OutOfFuel, r, []).

Definition bind {Remote A B : Type} (m : M Remote A) (f : A -> M Remote B)
  : M Remote B :=
  fun r =>
    match m r with
    | (Returned a, r1, t1) =>
        match f a r1 with
        | (o, r2, t2) => (o, r2, t1 ++ t2)
        end
    | (Raised e, r1, t1) => (Raised e, r1, t1)
    | (OutOfFuel, r1, t1) => (OutOfFuel, r1, t1)
    end.

Notation "x <- m ;; k" := (bind m (fun x => k))
  (at level 61, m at next level, right associativity).
Notation "m ;;; k" := (bind m (fun _ => k))
  (at level 61, right associativity).

(** A function that returns or raises, called from a computation. *)
Definition lift {Remote A : Type} (x : exn + A) : M Remote A :=
  match x with
  | inl e => raise e
  | inr a => ret a
  end.

(** [print(line)] *)
Definition print {Remote : Type} (line : str) : M Remote unit :=
  fun r => (Returned tt, r, [EvPrint line]).

(** [for x in xs: body(x)] *)
Fixpoint for_each {Remote A : Type} (xs : list A) (body : A -> M Remote unit)
  : M Remote unit :=
  match xs with
  | [] => ret tt
  | x :: xs' => body x ;;; for_each xs' body
  end.

(** [try: body  except MlflowException as e: handler(e.message)] *)
Definition try_except_MlflowException {Remote A : Type}
    (body : M Remote A) (handler : str -> M Remote A) : M Remote A :=
  fun r =>
    match body r with
    | (Raised (MlflowException message), r1, t1) =>
        match handler message r1 with
        | (o, r2, t2) => (o, r2, t1 ++ t2)
        end
    | res => res
    end.

Section Notebook.

Variable h : host.
Variable fs : filesystem.
Variable Remote : Type.

(** [mlflow.utils.rest_utils.http_request_safe]: the registry workspace
    answers the request or the call raises. *)
Variable http_request_safe : request -> Remote -> reply * Remote.

(** [mlflow.utils.databricks_utils.get_databricks_host_creds] *)
Variable get_databricks_host_creds : str -> host_creds.

Definition call_http_request_safe (rq : request) : M Remote unit :=
  fun r =>
    match http_request_safe rq r with
    | (Replied, r') => (Returned tt, r', [EvRequest rq Replied])
    | (Raises e, r') => (Raised e, r', [EvRequest rq (Raises e)])
    end.

(** [os.stat(path).st_size] *)
Definition os_stat_st_size (path : str) : M Remote nat :=
  match fs_stat_size fs path with
  | Some n => ret n
  | None => raise (OSError path)
  end.

(** [with open(path, 'rb') as f: body(f)]; the file is closed however the
    body ends. *)
Definition with_open_rb {A : Type} (path : str) (body : payload -> M Remote A)
  : M Remote A :=
  match fs_open_rb fs path with
  | None => raise (OSError path)
  | Some content =>
      fun r =>
        match body (DataFile path content) r with
        | (o, r', t) => (o, r', EvOpen path :: t ++ [EvClose path])
        end
  end.

Definition _get_dbfs_endpoint (artifact_uri artifact_path : str) : str :=
  lit "/dbfs/"
  ++ strip_prefix (rstrip chr_slash artifact_uri) (lit "dbfs:/")
  ++ lit "/"
  ++ strip_prefix artifact_path (lit "/").

Definition _copy_artifact (local_file artifact_uri : str)
    (artifact_path : option str) : M Remote unit :=
  let basename := os_path_basename h local_file in
  let http_endpoint :=
    match artifact_path with
    | Some p =>
        if nonempty p
        then _get_dbfs_endpoint artifact_uri (posixpath_join p basename)
        else _get_dbfs_endpoint artifact_uri basename
    | None => _get_dbfs_endpoint artifact_uri basename
    end in
  let host_creds := get_databricks_host_creds (lit "registry") in
  print (lit "Copying file to " ++ http_endpoint
         ++ lit " in registry workspace") ;;;
  try_except_MlflowException
    (st_size <- os_stat_st_size local_file ;;
     if st_size =? 0 then
       call_http_request_safe
         {| rq_host_creds := host_creds; rq_endpoint := http_endpoint;
            rq_method := lit "POST"; rq_data := DataStr [];
            rq_allow_redirects := false |}
     else
       with_open_rb local_file (fun f =>
         call_http_request_safe
           {| rq_host_creds := host_creds; rq_endpoint := http_endpoint;
              rq_method := lit "POST"; rq_data := f;
              rq_allow_redirects := false |}))
    (fun message =>
       if str_contains (lit "File already exists") message then
         print (lit "File already exists - continuing to the next file.")
       else
         (* [throw(e)]: the name [throw] is bound neither by the notebook
            nor by Python, so evaluating the call raises NameError. *)
         raise (NameError (lit "throw"))).

Definition copy_artifacts (fuel : nat) (artifact_uri artifact_path : str)
  : M Remote unit :=
  let local_dir :=
    lit "/dbfs/"
    ++ strip_prefix (rstrip chr_slash artifact_uri) (lit "dbfs:/")
    ++ lit "/"
    ++ strip_prefix artifact_path (lit "/") in
  let artifact_path := str_or_empty artifact_path in
  match os_walk fuel h fs local_dir with
  | None => out_of_fuel
  | Some entries =>
      for_each entries (fun '(dirpath, _, filenames) =>
        artifact_subdir <-
          (if negb (str_eqb dirpath local_dir) then
             rel_path <- lift (os_path_relpath h (fs_getcwd fs)
                                               dirpath local_dir) ;;
             rel_path <- lift (relative_path_to_artifact_path
                                 h (fs_getcwd fs) rel_path) ;;
             ret (posixpath_join artifact_path rel_path)
           else ret artifact_path) ;;
        for_each filenames (fun name =>
          let file_path := os_path_join h dirpath name in
          _copy_artifact file_path artifact_uri (Some artifact_subdir)))
  end.

End Notebook.

(** ** Reading a trace *)

(** The requests a trace sent, in order. *)
Fixpoint requests_of (t : list event) : list request :=
  match t with
  | [] => []
  | EvRequest rq _ :: t' => rq :: requests_of t'
  | _ :: t' => requests_of t'
  end.

(** The replies a trace received, in order. *)
Fixpoint replies_of (t : list event) : list reply :=
  match t with
  | [] => []
  | EvRequest _ rp :: t' => rp :: replies_of t'
  | _ :: t' => replies_of t'
  end.

(** The files a trace opened, in order. *)
Fixpoint opened_in (t : list event) : list str :=
  match t with
  | [] => []
  | EvOpen p :: t' => p :: opened_in t'
  | _ :: t' => opened_in t'
  end.

(** The error the notebook takes for "the file is already there". *)
Definition is_conflict (e : exn) : bool :=
  match e with
  | MlflowException message =>
      str_contains (lit "File already exists") message
  | _ => false
  end.

Definition conflict_reply (rp : reply) : bool :=
  match rp with
  | Replied => false
  | Raises e => is_conflict e
  end.

(** ** Directory trees

    A directory as [os.walk] sees it: its files with their contents and its
    sub-directories, each list in the order of the directory listing. *)

Inductive tree : Type :=
| Tree (files : list (str * list ascii)) (subdirs : list (str * tree)).

Definition tree_files (t : tree) : list (str * list ascii) :=
  match t with Tree files _ => files end.

Definition tree_subdirs (t : tree) : list (str * tree) :=
  match t with Tree _ subdirs => subdirs end.

(** Characters no entry of a directory listing contains: the separators and,
    on Windows, the colon. *)
Definition is_reserved (h : host) (c : ascii) : bool :=
  is_sep h c
  || match h with Posix => false | Nt => Ascii.eqb c chr_colon end.

(** A name a directory listing can contain. *)
Definition valid_name (h : host) (n : str) : bool :=
  nonempty n && negb (str_eqb n dot) && negb (str_eqb n dotdot)
  && forallb (fun c => negb (is_reserved h c)) n.

(** The path [os.walk] builds for the directory reached from [top] through
    the sub-directories [chain]. *)
Definition path_at (h : host) (top : str) (chain : list str) : str :=
  fold_left (os_path_join h) chain top.

(** The file system holds the tree [t] at the path [top]. *)
Inductive realises (h : host) (fs : filesystem) : str -> tree -> Prop :=
| realises_dir (top : str) (files : list (str * list ascii))
    (subdirs : list (str * tree)) :
    fs_scandir fs top = Some (map fst subdirs, map fst files) ->
    Forall (fun f =>
              valid_name h (fst f) = true
              /\ fs_stat_size fs (os_path_join h top (fst f))
                 = Some (List.length (snd f))
              /\ fs_open_rb fs (os_path_join h top (fst f)) = Some (snd f))
           files ->
    Forall (fun d =>
              valid_name h (fst d) = true
              /\ fs_islink fs (os_path_join h top (fst d)) = false
              /\ realises h fs (os_path_join h top (fst d)) (snd d))
           subdirs ->
    realises h fs top (Tree files subdirs).

(** A file of a tree: the chain of sub-directories leading to it, its name
    and its content. *)
Definition tree_file : Type := (list str * str * list ascii)%type.

(** The files of a tree, a directory's own files before those of its
    sub-directories. *)
Fixpoint files_of (chain : list str) (t : tree) : list tree_file :=
  match t with
  | Tree files subdirs =>
      map (fun f => (chain, fst f, snd f)) files
      ++ flat_map (fun d => files_of (chain ++ [fst d]) (snd d)) subdirs
  end.

(** The directories of a tree, top-down, each with the chain leading to it. *)
Fixpoint walk_chains (chain : list str) (t : tree)
  : list (list str * tree) :=
  match t with
  | Tree files subdirs =>
      (chain, t)
      :: flat_map (fun d => walk_chains (chain ++ [fst d]) (snd d)) subdirs
  end.

Fixpoint tree_depth (t : tree) : nat :=
  match t with
  | Tree _ subdirs => S (list_max (map (fun d => tree_depth (snd d)) subdirs))
  end.

(** ** What the specification expects of an upload *)

(** The local directory that [copy_artifacts] resolves. *)
Definition local_dir_of (artifact_uri artifact_path : str) : str :=
  _get_dbfs_endpoint artifact_uri artifact_path.

(** The destination root: the endpoint of the artifact directory itself,
    without a closing slash. *)
Definition destination_root (artifact_uri artifact_path : str) : str :=
  let e := _get_dbfs_endpoint artifact_uri artifact_path in
  if endswith_chr e chr_slash then removelast e else e.

(** Root, relative sub-directory chain and basename, joined by [/]. *)
Definition destination_endpoint (artifact_uri artifact_path : str)
    (chain : list str) (name : str) : str :=
  join_with (lit "/") (destination_root artifact_uri artifact_path
                       :: chain ++ [name]).

(** The body of the upload of a file: empty for an empty file, the open file
    otherwise. *)
Definition expected_data (local_file : str) (content : list ascii) : payload :=
  match content with
  | [] => DataStr []
  | _ :: _ => DataFile local_file content
  end.

Definition expected_request (h : host) (creds : host_creds)
    (artifact_uri artifact_path : str) (f : tree_file) : request :=
  match f with
  | (chain, name, content) =>
      {| rq_host_creds := creds;
         rq_endpoint := destination_endpoint artifact_uri artifact_path
                                             chain name;
         rq_method := lit "POST";
         rq_data :=
           expected_data
             (os_path_join h (path_at h (local_dir_of artifact_uri
                                                      artifact_path) chain)
                           name)
             content;
         rq_allow_redirects := false |}
  end.

(** ** A registry workspace and a file system to run the notebook on *)

(** A DBFS-like store: the endpoints that hold an object.  A request to an
    endpoint that holds one is refused, any other request creates it. *)
Definition dbfs_store : Type := list str.

Definition dbfs_holds (store : dbfs_store) (endpoint : str) : bool :=
  existsb (str_eqb endpoint) store.

Definition dbfs_http_request_safe (rq : request) (store : dbfs_store)
  : reply * dbfs_store :=
  if dbfs_holds store (rq_endpoint rq)
  then (Raises (MlflowException
                  (lit "RESOURCE_ALREADY_EXISTS: File already exists, cannot overwrite")),
        store)
  else (Replied, rq_endpoint rq :: store).

(** A workspace that refuses every request for lack of permission. *)
Definition denying_http_request_safe (rq : request) (store : dbfs_store)
  : reply * dbfs_store :=
  (Raises (MlflowException (lit "PERMISSION_DENIED: token is not allowed to write")),
   store).

Definition registry_creds (profile : str) : host_creds :=
  lit "databricks://" ++ profile.

Fixpoint assoc {A : Type} (k : str) (l : list (str * A)) : option A :=
  match l with
  | [] => None
  | (k', v) :: l' => if str_eqb k k' then Some v else assoc k l'
  end.

(** The tree [{model/MLmodel, model/data/model.h5}] under the artifact root
    [dbfs:/registry/run123], with an empty [model.h5]. *)
Definition sample_tree : tree :=
  Tree [(lit "MLmodel", lit "flavors:")]
       [(lit "data", Tree [(lit "model.h5", [])] [])].

Definition sample_fs : filesystem :=
  {| fs_scandir := fun p =>
       assoc p [(lit "/dbfs/registry/run123/model",
                 ([lit "data"], [lit "MLmodel"]));
                (lit "/dbfs/registry/run123/model/data",
                 ([], [lit "model.h5"]))];
     fs_islink := fun _ => false;
     fs_stat_size := fun p =>
       assoc p [(lit "/dbfs/registry/run123/model/MLmodel", 8);
                (lit "/dbfs/registry/run123/model/data/model.h5", 0)];
     fs_open_rb := fun p =>
       assoc p [(lit "/dbfs/registry/run123/model/MLmodel", lit "flavors:");
                (lit "/dbfs/registry/run123/model/data/model.h5", [])];
     fs_getcwd := lit "/databricks/driver" |}.

Definition sample_uri : str := lit "dbfs:/registry/run123".
Definition sample_path : str := lit "model".

(** ** The shape of one upload *)

(** The endpoint [_copy_artifact] posts a file to. *)
Definition http_endpoint_of (h : host) (local_file artifact_uri : str)
    (artifact_path : option str) : str :=
  match artifact_path with
  | Some p =>
      if nonempty p
      then _get_dbfs_endpoint artifact_uri
             (posixpath_join p (os_path_basename h local_file))
      else _get_dbfs_endpoint artifact_uri (os_path_basename h local_file)
  | None => _get_dbfs_endpoint artifact_uri (os_path_basename h local_file)
  end.

(** The request [_copy_artifact] sends for a file, given its body. *)
Definition upload_request (h : host) (creds : host_creds)
    (local_file artifact_uri : str) (artifact_path : option str)
    (data : payload) : request :=
  {| rq_host_creds := creds;
     rq_endpoint := http_endpoint_of h local_file artifact_uri artifact_path;
     rq_method := lit "POST";
     rq_data := data;
     rq_allow_redirects := false |}.

(** How [_copy_artifact] ends once the request has been answered, and what
    it prints then. *)
Definition after_reply (rp : reply) : outcome unit * list event :=
  match rp with
  | Replied => (Returned tt, [])
  | Raises (MlflowException message) =>
      if str_contains (lit "File already exists") message
      then (Returned tt,
            [EvPrint (lit "File already exists - continuing to the next file.")])
      else (Raised (NameError (lit "throw")), [])
  | Raises e => (Raised e, [])
  end.

(** The line [_copy_artifact] prints before it uploads. *)
Definition copying_line (h : host) (local_file artifact_uri : str)
    (artifact_path : option str) : event :=
  EvPrint (lit "Copying file to "
           ++ http_endpoint_of h local_file artifact_uri artifact_path
           ++ lit " in registry workspace").

(** The parts of the result of a computation. *)
Definition outcome_of {Remote A : Type}
    (res : outcome A * Remote * list event) : outcome A := fst (fst res).
Definition remote_of {Remote A : Type}
    (res : outcome A * Remote * list event) : Remote := snd (fst res).
Definition trace_of {Remote A : Type}
    (res : outcome A * Remote * list event) : list event := snd res.

(** The result of a computation stops at a failed request: whenever a
    request of its trace was answered by an error other than the conflict,
    no request follows it and the computation raised. *)
Definition aborts_on_failure {Remote A : Type}
    (res : outcome A * Remote * list event) : Prop :=
  forall t1 rq e t2,
    trace_of res = t1 ++ EvRequest rq (Raises e) :: t2 ->
    is_conflict e = false ->
    requests_of t2 = [] /\ exists e', outcome_of res = Raised e'.

(** The [artifact_subdir] that [copy_artifacts] computes for the directory
    [dirpath] of the walk, or the error raised on the way. *)
Definition artifact_subdir_of (h : host) (cwd local_dir artifact_path
    dirpath : str) : exn + str :=
  if negb (str_eqb dirpath local_dir) then
    match os_path_relpath h cwd dirpath local_dir with
    | inl e => inl e
    | inr rel_path =>
        match relative_path_to_artifact_path h cwd rel_path with
        | inl e => inl e
        | inr rel_path => inr (posixpath_join artifact_path rel_path)
        end
    end
  else inr artifact_path.

(** The conflict is the only answer the trace holds. *)
Definition all_conflicts (t : list event) : Prop :=
  Forall (fun rp => conflict_reply rp = true) (replies_of t).

(** ** Running a computation again

    [stored r ep] says that the registry workspace, in state [r], holds an
    object at the endpoint [ep]. *)

(** The state [r'] holds at least the objects of [r]. *)
Definition holds_at_least {Remote : Type} (stored : Remote -> str -> Prop)
    (r r' : Remote) : Prop :=
  forall ep, stored r ep -> stored r' ep.

(** A computation that removes no object. *)
Definition keeps {Remote A : Type} (stored : Remote -> str -> Prop)
    (m : M Remote A) : Prop :=
  forall r, holds_at_least stored r (remote_of (m r)).

(** A computation that, once it has returned, returns again from every state
    holding at least what it left, sending the same requests and receiving
    nothing but conflicts. *)
Definition reruns {Remote : Type} (stored : Remote -> str -> Prop)
    (m : M Remote unit) : Prop :=
  forall r r1 t1,
    m r = (Returned tt, r1, t1) ->
    forall r',
      holds_at_least stored r1 r' ->
      exists r'' t'',
        m r' = (Returned tt, r'', t'')
        /\ all_conflicts t''
        /\ requests_of t'' = requests_of t1.

(** The components [normpath] keeps of an absolute path. *)
Definition path_stack (h : host) (p : str) : list str :=
  fold_left (norm_step true) (split_on (is_sep h) p) [].

(** A component that [normpath] keeps as it is and that holds no separator. *)
Definition clean (h : host) (comp : str) : bool :=
  nonempty comp && negb (str_eqb comp dot) && negb (str_eqb comp dotdot)
  && forallb (fun c => negb (is_sep h c)) comp.

(** The item [os.walk] produces for a directory of the tree held at [top]. *)
Definition entry_of (h : host) (top : str) (ct : list str * tree)
  : walk_entry :=
  (path_at h top (fst ct),
   map fst (tree_subdirs (snd ct)),
   map fst (tree_files (snd ct))).

(** The files of one directory of a tree, with the chain leading to it. *)
Definition own_files (ct : list str * tree) : list tree_file :=
  map (fun f => (fst ct, fst f, snd f)) (tree_files (snd ct)).

(** The same tree on a Windows host, where [os.walk] joins with backslashes. *)
Definition sample_fs_nt : filesystem :=
  {| fs_scandir := fun p =>
       assoc p [(lit "/dbfs/registry/run123/model",
                 ([lit "data"], [lit "MLmodel"]));
                (lit "/dbfs/registry/run123/model\data",
                 ([], [lit "model.h5"]))];
     fs_islink := fun _ => false;
     fs_stat_size := fun p =>
       assoc p [(lit "/dbfs/registry/run123/model\MLmodel", 8);
                (lit "/dbfs/registry/run123/model\data\model.h5", 0)];
     fs_open_rb := fun p =>
       assoc p [(lit "/dbfs/registry/run123/model\MLmodel", lit "flavors:");
                (lit "/dbfs/registry/run123/model\data\model.h5", [])];
     fs_getcwd := lit "\databricks\driver" |}.

(** A source directory that holds an empty sub-directory and no file. *)
Definition bare_tree : tree := Tree [] [(lit "data", Tree [] [])].

Definition bare_fs : filesystem :=
  {| fs_scandir := fun p =>
       assoc p [(lit "/dbfs/registry/run123/model", ([lit "data"], []));
                (lit "/dbfs/registry/run123/model/data", ([], []))];
     fs_islink := fun _ => false;
     fs_stat_size := fun _ => None;
     fs_open_rb := fun _ => None;
     fs_getcwd := lit "/databricks/driver" |}.

(** ** The rest of the trace *)

(** The files a trace closed, in order. *)
Fixpoint closed_in (t : list event) : list str :=
  match t with
  | [] => []
  | EvClose p :: t' => p :: closed_in t'
  | _ :: t' => closed_in t'
  end.

(** The result of a computation ends as [_copy_artifact] ends on a failed
    request: whenever a request of its trace was answered by an error other
    than the conflict, its outcome is the one [after_reply] gives for that
    error. *)
Definition ends_as_replied {Remote : Type}
    (res : outcome unit * Remote * list event) : Prop :=
  forall t1 rq e t2,
    trace_of res = t1 ++ EvRequest rq (Raises e) :: t2 ->
    is_conflict e = false ->
    outcome_of res = fst (after_reply (Raises e)).

(** A workspace that cannot be reached: the transport raises an error that
    is no MlflowException. *)
Definition unreachable_http_request_safe (rq : request) (store : dbfs_store)
  : reply * dbfs_store :=
  (Raises (OtherError (lit "ConnectionError: connection refused")), store).

(** A source directory whose only entry is a sub-directory that cannot be
    listed. *)
Definition locked_fs : filesystem :=
  {| fs_scandir := fun p =>
       assoc p [(lit "/dbfs/registry/run123/model", ([lit "data"], []))];
     fs_islink := fun _ => false;
     fs_stat_size := fun _ => None;
     fs_open_rb := fun _ => None;
     fs_getcwd := lit "/databricks/driver" |}.

(** ** Registering the model

    The cell that follows the copy: it computes the [source] of the model
    version and calls the registry client.  An exception of the client either
    carries an [error_code] (MlflowException and its subclasses) or does
    not. *)

Inductive client_exception : Type :=
| RestException (error_code message : str)
| BuiltinException (description : str).

(** How the cell ends when it does not run to its end. *)
Inductive cell_error : Type :=
| CellRaised (e : client_exception)
| CellNameError (name : str)
| CellAttributeError (attribute : str).

Inductive cell_event : Type :=
| CallCreateRegisteredModel (name : str)
| CallCreateModelVersion (name source run_id : str)
| CellPrintException (e : client_exception)
| CellPrintVersion (version : str).

(** [source = posixpath.join(artifact_uri, artifact_path)] *)
Definition model_source (artifact_uri artifact_path : str) : str :=
  posixpath_join artifact_uri artifact_path.

Section Registration.

Variable Registry : Type.

(** [remote_client.create_registered_model(name)]: returns or raises. *)
Variable create_registered_model :
  str -> Registry -> option client_exception * Registry.

(** [remote_client.create_model_version(name, source, run_id)]: the new
    version or the exception raised. *)
Variable create_model_version :
  str -> str -> str -> Registry -> (client_exception + str) * Registry.

(** The last two statements of the cell. *)
Definition create_and_print_version (model_name source run_id : str)
    (g : Registry) : (cell_error + str) * Registry * list cell_event :=
  match create_model_version model_name source run_id g with
  | (inr mv, g') =>
      (inr mv, g',
       [CallCreateModelVersion model_name source run_id; CellPrintVersion mv])
  | (inl e, g') =>
      (inl (CellRaised e), g',
       [CallCreateModelVersion model_name source run_id])
  end.

Definition register_model (model_name artifact_uri artifact_path run_id : str)
    (g : Registry) : (cell_error + str) * Registry * list cell_event :=
  let source := model_source artifact_uri artifact_path in
  match create_registered_model model_name g with
  | (None, g1) =>
      match create_and_print_version model_name source run_id g1 with
      | (res, g2, t) => (res, g2, CallCreateRegisteredModel model_name :: t)
      end
  | (Some e, g1) =>
      match e with
      | RestException error_code _ =>
          if str_eqb error_code (lit "RESOURCE_ALREADY_EXISTS") then
            match create_and_print_version model_name source run_id g1 with
            | (res, g2, t) =>
                (res, g2,
                 CallCreateRegisteredModel model_name
                 :: CellPrintException e :: t)
            end
          else
            (* [throw(e)]: [throw] is no name of Python or of the notebook *)
            (inl (CellNameError (lit "throw")), g1,
             [CallCreateRegisteredModel model_name])
      | BuiltinException _ =>
          (* [e.error_code]: the exception has no such attribute *)
          (inl (CellAttributeError (lit "error_code")), g1,
           [CallCreateRegisteredModel model_name])
      end
  end.

End Registration.

(** The calls of [create_model_version] in a trace of the cell. *)
Fixpoint version_calls (t : list cell_event) : list (str * str * str) :=
  match t with
  | [] => []
  | CallCreateModelVersion n s r :: t' => (n, s, r) :: version_calls t'
  | _ :: t' => version_calls t'
  end.

(** A registry that knows the models of a list and numbers the versions of
    a model from 1. *)
Definition registry_state : Type := list str.

Definition sample_create_registered_model (name : str) (g : registry_state)
  : option client_exception * registry_state :=
  if existsb (str_eqb name) g
  then (Some (RestException (lit "RESOURCE_ALREADY_EXISTS")
                            (lit "Registered Model already exists")), g)
  else (None, name :: g).

Definition sample_create_model_version (name source run_id : str)
    (g : registry_state) : (client_exception + str) * registry_state :=
  (inr (lit "1"), g).

(** A registry the token may not write to, and one that cannot be reached. *)
Definition denying_create_registered_model (name : str) (g : registry_state)
  : option client_exception * registry_state :=
  (Some (RestException (lit "PERMISSION_DENIED") (lit "not allowed")), g).


(** ** Trees that are on disk without being listable

    The files of the tree exist under [top]: each can be stat'ed and opened
    at its path.  Nothing is asked of the directory listings: a directory
    without read permission holds files that can be opened by name and cannot
    be listed. *)
Inductive on_disk (h : host) (fs : filesystem) : str -> tree -> Prop :=
| on_disk_dir (top : str) (files : list (str * list ascii))
    (subdirs : list (str * tree)) :
    Forall (fun f =>
              valid_name h (fst f) = true
              /\ fs_stat_size fs (os_path_join h top (fst f))
                 = Some (List.length (snd f))
              /\ fs_open_rb fs (os_path_join h top (fst f)) = Some (snd f))
           files ->
    Forall (fun d =>
              valid_name h (fst d) = true
              /\ on_disk h fs (os_path_join h top (fst d)) (snd d))
           subdirs ->
    on_disk h fs top (Tree files subdirs).

(** The sample tree with a [data] directory that cannot be listed: its file
    [model.h5] is there, and readable, all the same. *)
Definition guarded_fs : filesystem :=
  {| fs_scandir := fun p =>
       assoc p [(lit "/dbfs/registry/run123/model",
                 ([lit "data"], [lit "MLmodel"]))];
     fs_islink := fun _ => false;
     fs_stat_size := fun p =>
       assoc p [(lit "/dbfs/registry/run123/model/MLmodel", 8);
                (lit "/dbfs/registry/run123/model/data/model.h5", 0)];
     fs_open_rb := fun p =>
       assoc p [(lit "/dbfs/registry/run123/model/MLmodel", lit "flavors:");
                (lit "/dbfs/registry/run123/model/data/model.h5", [])];
     fs_getcwd := lit "/databricks/driver" |}.

(* ================================================================== *)
(** * Properties *)

(** ** Strings *)

Lemma str_eqb_refl (a : str) : str_eqb a a = true.
Proof.
  induction a as [|x a IH]; simpl; [reflexivity|].
  now rewrite Ascii.eqb_refl, IH.
Qed.

Lemma str_eqb_eq (a b : str) : str_eqb a b = true <-> a = b.
Proof.
  split.
  - revert b; induction a as [|x a IH]; intros [|y b]; simpl;
      try discriminate; [reflexivity|].
    intros H; apply andb_true_iff in H as [Hx Hr].
    apply Ascii.eqb_eq in Hx; subst; f_equal; auto.
  - intros ->; apply str_eqb_refl.
Qed.

Lemma str_eqb_neq (a b : str) : str_eqb a b = false <-> a <> b.
Proof.
  rewrite <- str_eqb_eq. destruct (str_eqb a b); split; congruence.
Qed.

Lemma drop_while_repeat (c : ascii) (k : nat) (s : str) :
  drop_while (Ascii.eqb c) (repeat c k ++ s) = drop_while (Ascii.eqb c) s.
Proof.
  induction k as [|k IH]; simpl; [reflexivity|].
  now rewrite Ascii.eqb_refl.
Qed.

Lemma rev_repeat (c : ascii) (k : nat) : rev (repeat c k) = repeat c k.
Proof.
  induction k as [|k IH]; simpl; [reflexivity|].
  rewrite IH. clear IH. induction k as [|k IH]; simpl; [reflexivity|].
  now rewrite IH.
Qed.

Lemma rstrip_repeat (c : ascii) (k : nat) (s : str) :
  rstrip c (s ++ repeat c k) = rstrip c s.
Proof.
  unfold rstrip. now rewrite rev_app_distr, rev_repeat, drop_while_repeat.
Qed.

Lemma strip_prefix_slash_cons (p : str) :
  strip_prefix (chr_slash :: p) (lit "/") = p.
Proof. reflexivity. Qed.

Lemma strip_prefix_no_slash (p : str) :
  startswith p (lit "/") = false -> strip_prefix p (lit "/") = p.
Proof. unfold strip_prefix. now intros ->. Qed.

(** ** One upload, case by case *)

Section Upload.

Variable h : host.
Variable fs : filesystem.
Variable Remote : Type.
Variable http_request_safe : request -> Remote -> reply * Remote.
Variable get_databricks_host_creds : str -> host_creds.

Let creds := get_databricks_host_creds (lit "registry").
Let upload := _copy_artifact h fs http_request_safe get_databricks_host_creds.

Lemma copy_artifact_unfold (local_file artifact_uri : str)
    (artifact_path : option str) (r : Remote) :
  upload local_file artifact_uri artifact_path r =
  let line := copying_line h local_file artifact_uri artifact_path in
  let rq := upload_request h creds local_file artifact_uri artifact_path in
  match fs_stat_size fs local_file with
  | None => (Raised (OSError local_file), r, [line])
  | Some 0 =>
      let '(rp, r') := http_request_safe (rq (DataStr [])) r in
      (fst (after_reply rp), r',
       line :: EvRequest (rq (DataStr [])) rp :: snd (after_reply rp))
  | Some (S _) =>
      match fs_open_rb fs local_file with
      | None => (Raised (OSError local_file), r, [line])
      | Some content =>
          let data := DataFile local_file content in
          let '(rp, r') := http_request_safe (rq data) r in
          (fst (after_reply rp), r',
           line :: EvOpen local_file :: EvRequest (rq data) rp
                :: EvClose local_file :: snd (after_reply rp))
      end
  end.
Proof.
  unfold upload, _copy_artifact, copying_line, upload_request,
    http_endpoint_of, creds.
  set (ep := match artifact_path with
             | Some p => _
             | None => _
             end).
  set (line := lit "Copying file to " ++ ep ++ lit " in registry workspace").
  unfold bind, print, try_except_MlflowException, os_stat_st_size,
    with_open_rb, call_http_request_safe, ret, raise.
  destruct (fs_stat_size fs local_file) as [[|n]|]; simpl; [| |reflexivity].
  - destruct (http_request_safe _ r) as [[|e] r']; simpl; [reflexivity|].
    destruct e; simpl; try reflexivity.
    destruct (str_contains _ message); reflexivity.
  - destruct (fs_open_rb fs local_file) as [content|]; simpl;
      [|reflexivity].
    destruct (http_request_safe _ r) as [[|e] r']; simpl; [reflexivity|].
    destruct e; simpl; try reflexivity.
    destruct (str_contains _ message); reflexivity.
Qed.

End Upload.

(** ** Traces of composed computations *)

Lemma requests_of_app (t1 t2 : list event) :
  requests_of (t1 ++ t2) = requests_of t1 ++ requests_of t2.
Proof.
  induction t1 as [|[] t1 IH]; simpl; auto. now rewrite IH.
Qed.

Lemma replies_of_app (t1 t2 : list event) :
  replies_of (t1 ++ t2) = replies_of t1 ++ replies_of t2.
Proof.
  induction t1 as [|[] t1 IH]; simpl; auto. now rewrite IH.
Qed.

Lemma bind_returned {Remote A B : Type} (m : M Remote A) (f : A -> M Remote B)
    (r r1 : Remote) (a : A) (t1 : list event) :
  m r = (Returned a, r1, t1) ->
  bind m f r = (outcome_of (f a r1), remote_of (f a r1), t1 ++ trace_of (f a r1)).
Proof.
  intros E. unfold bind. rewrite E. now destruct (f a r1) as [[o r2] t2].
Qed.

(** A property of events that holds of every event of [m] and of [f] holds
    of every event of [bind m f]. *)
Lemma bind_trace_Forall {Remote A B : Type} (P : event -> Prop)
    (m : M Remote A) (f : A -> M Remote B) (r : Remote) :
  Forall P (trace_of (m r)) ->
  (forall a r1, Forall P (trace_of (f a r1))) ->
  Forall P (trace_of (bind m f r)).
Proof.
  intros Hm Hf. unfold bind.
  destruct (m r) as [[[a | e |] r1] t1]; simpl in *; auto.
  specialize (Hf a r1). destruct (f a r1) as [[o r2] t2]; simpl in *.
  apply Forall_app; auto.
Qed.

Lemma for_each_trace_Forall {Remote A : Type} (P : event -> Prop)
    (xs : list A) (body : A -> M Remote unit) :
  (forall x r, In x xs -> Forall P (trace_of (body x r))) ->
  forall r, Forall P (trace_of (for_each xs body r)).
Proof.
  induction xs as [|x xs IH]; intros Hb r; simpl.
  - constructor.
  - apply bind_trace_Forall.
    + apply Hb; now left.
    + intros _ r1. apply IH. intros y r2 Hy. apply Hb; now right.
Qed.

Lemma lift_trace {Remote A : Type} (x : exn + A) (r : Remote) :
  trace_of (@lift Remote A x r) = [].
Proof. now destruct x. Qed.

(** ** Endpoint derivation *)

(** C10: the endpoint is the same whether or not the artifact root carries
    closing slashes and whether or not the relative path carries one opening
    slash: every such spelling of a root and of a path that does not itself
    begin with a slash gives the endpoint of the plain spelling. *)
Theorem get_dbfs_endpoint_redundant_slashes
    (artifact_uri artifact_path : str) (k : nat) :
  startswith artifact_path (lit "/") = false ->
  _get_dbfs_endpoint (artifact_uri ++ repeat chr_slash k) artifact_path
  = _get_dbfs_endpoint artifact_uri artifact_path
  /\ _get_dbfs_endpoint artifact_uri (chr_slash :: artifact_path)
     = _get_dbfs_endpoint artifact_uri artifact_path
  /\ _get_dbfs_endpoint (artifact_uri ++ repeat chr_slash k)
                        (chr_slash :: artifact_path)
     = _get_dbfs_endpoint artifact_uri artifact_path.
Proof.
  intros H. unfold _get_dbfs_endpoint.
  rewrite rstrip_repeat, strip_prefix_slash_cons, (strip_prefix_no_slash _ H).
  auto.
Qed.

Lemma get_dbfs_endpoint_redundant_slashes_witness :
  startswith (lit "model") (lit "/") = false
  /\ _get_dbfs_endpoint (lit "dbfs:/registry/run123//") (lit "/model")
     = lit "/dbfs/registry/run123/model"
  /\ _get_dbfs_endpoint (lit "dbfs:/registry/run123") (lit "model")
     = lit "/dbfs/registry/run123/model".
Proof.
  split; [reflexivity|]. split; [|reflexivity].
  destruct (get_dbfs_endpoint_redundant_slashes
              (lit "dbfs:/registry/run123") (lit "model") 2 eq_refl)
    as (_ & _ & E).
  exact E.
Defined.

(** A directory that cannot be listed is walked as nothing at all. *)
Lemma os_walk_unlistable (h : host) (fs : filesystem) (fuel : nat) (top : str) :
  fs_scandir fs top = None -> os_walk (S fuel) h fs top = Some [].
Proof. intros H. simpl. now rewrite H. Qed.

(** ** What one upload sends *)

Section UploadProperties.

Variable h : host.
Variable fs : filesystem.
Variable Remote : Type.
Variable http_request_safe : request -> Remote -> reply * Remote.
Variable get_databricks_host_creds : str -> host_creds.

Let creds := get_databricks_host_creds (lit "registry").
Let upload := _copy_artifact h fs http_request_safe get_databricks_host_creds.
Let run := copy_artifacts h fs http_request_safe get_databricks_host_creds.

(** Every request of one upload is the upload request of the file, with
    some body. *)
Lemma upload_requests_shape (local_file artifact_uri : str)
    (artifact_path : option str) (r : Remote) :
  Forall (fun ev =>
            match ev with
            | EvRequest rq _ =>
                exists data,
                  rq = upload_request h creds local_file artifact_uri
                                      artifact_path data
            | _ => True
            end)
         (trace_of (upload local_file artifact_uri artifact_path r)).
Proof.
  unfold upload. rewrite copy_artifact_unfold. cbv zeta.
  destruct (fs_stat_size fs local_file) as [[|n]|].
  - destruct (http_request_safe _ r) as [rp r']. unfold trace_of; simpl.
    constructor; [exact I|]. constructor; [eauto|].
    destruct rp as [|[]]; simpl; try constructor; auto.
    destruct (str_contains _ message); simpl; repeat constructor.
  - destruct (fs_open_rb fs local_file) as [content|].
    + destruct (http_request_safe _ r) as [rp r']. unfold trace_of; simpl.
      do 2 (constructor; [exact I|]). constructor; [eauto|].
      constructor; [exact I|].
      destruct rp as [|[]]; simpl; try constructor; auto.
      destruct (str_contains _ message); simpl; repeat constructor.
    + repeat constructor.
  - repeat constructor.
Qed.

(** C8: every request sent by [_copy_artifact], on the empty-body path and
    on the streamed path alike, has redirect-following switched off; so has
    every request of a whole [copy_artifacts] run. *)
Theorem upload_requests_do_not_follow_redirects :
  (forall local_file artifact_uri artifact_path r rq rp,
      In (EvRequest rq rp)
         (trace_of (upload local_file artifact_uri artifact_path r)) ->
      rq_allow_redirects rq = false)
  /\ (forall fuel artifact_uri artifact_path r rq rp,
         In (EvRequest rq rp)
            (trace_of (run fuel artifact_uri artifact_path r)) ->
         rq_allow_redirects rq = false).
Proof.
  set (P := fun ev => match ev with
                      | EvRequest rq _ => rq_allow_redirects rq = false
                      | _ => True
                      end).
  assert (Hup : forall local_file artifact_uri artifact_path r,
             Forall P (trace_of (upload local_file artifact_uri
                                        artifact_path r))).
  { intros. eapply Forall_impl; [|apply upload_requests_shape].
    intros [] Hev; simpl; auto. now destruct Hev as [data ->]. }
  split.
  - intros local_file artifact_uri artifact_path r rq rp Hin.
    specialize (Hup local_file artifact_uri artifact_path r).
    rewrite Forall_forall in Hup. exact (Hup _ Hin).
  - intros fuel artifact_uri artifact_path r rq rp Hin.
    assert (Hrun : Forall P (trace_of (run fuel artifact_uri
                                           artifact_path r))).
    { unfold run, copy_artifacts.
      destruct (os_walk fuel h fs _) as [entries|]; [|constructor].
      apply for_each_trace_Forall. intros [[dirpath dirs] filenames] r1 _.
      apply bind_trace_Forall.
      - destruct (negb _); [|constructor].
        apply bind_trace_Forall; [rewrite lift_trace; constructor|].
        intros rel r2.
        apply bind_trace_Forall; [rewrite lift_trace; constructor|].
        intros; constructor.
      - intros subdir r2. apply for_each_trace_Forall.
        intros name r3 _. apply Hup. }
    rewrite Forall_forall in Hrun. exact (Hrun _ Hin).
Qed.

(** C6: a file of size zero is posted with an empty body and is never
    opened; a file of another size is opened and posted with the open file,
    that is its bytes, as the body. *)
Theorem empty_file_posted_without_opening
    (local_file artifact_uri : str) (artifact_path : option str)
    (r : Remote) (size : nat) :
  fs_stat_size fs local_file = Some size ->
  let tr := trace_of (upload local_file artifact_uri artifact_path r) in
  (size = 0 ->
   requests_of tr
   = [upload_request h creds local_file artifact_uri artifact_path
                     (DataStr [])]
   /\ opened_in tr = [])
  /\ (size <> 0 ->
      forall content,
        fs_open_rb fs local_file = Some content ->
        requests_of tr
        = [upload_request h creds local_file artifact_uri artifact_path
                          (DataFile local_file content)]
        /\ opened_in tr = [local_file]).
Proof.
  intros Hsize. cbv zeta. unfold upload. rewrite copy_artifact_unfold.
  cbv zeta. rewrite Hsize. split.
  - intros ->. destruct (http_request_safe _ r) as [rp r'].
    unfold trace_of; simpl.
    destruct rp as [|[]]; simpl; auto;
      destruct (str_contains _ message); simpl; auto.
  - intros Hnz content Hopen. destruct size as [|n]; [congruence|].
    rewrite Hopen. destruct (http_request_safe _ r) as [rp r'].
    unfold trace_of; simpl.
    destruct rp as [|[]]; simpl; auto;
      destruct (str_contains _ message); simpl; auto.
Qed.

(** C3: when the registry answers an upload with "File already exists",
    [_copy_artifact] swallows the error and returns normally, and the loop
    over the files of the directory goes on with the next file. *)
Theorem conflict_is_swallowed
    (dirpath name artifact_uri artifact_subdir : str) (names : list str)
    (r : Remote) (rq : request) (message : str) :
  let step := fun n => upload (os_path_join h dirpath n) artifact_uri
                              (Some artifact_subdir) in
  In (EvRequest rq (Raises (MlflowException message)))
     (trace_of (step name r)) ->
  str_contains (lit "File already exists") message = true ->
  outcome_of (step name r) = Returned tt
  /\ for_each (name :: names) step r
     = (outcome_of (for_each names step (remote_of (step name r))),
        remote_of (for_each names step (remote_of (step name r))),
        trace_of (step name r)
        ++ trace_of (for_each names step (remote_of (step name r)))).
Proof.
  cbv zeta. intros Hin Hc.
  assert (Hret : outcome_of (upload (os_path_join h dirpath name)
                                    artifact_uri (Some artifact_subdir) r)
                 = Returned tt).
  { revert Hin. unfold upload. rewrite copy_artifact_unfold. cbv zeta.
    destruct (fs_stat_size fs _) as [[|n]|].
    - destruct (http_request_safe _ r) as [rp r'].
      unfold trace_of, outcome_of; simpl.
      intros [Hin|[Hin|Hin]]; try discriminate.
      + injection Hin as _ ->. unfold after_reply. now rewrite Hc.
      + destruct rp as [|[]]; simpl in *; try contradiction.
        destruct (str_contains _ message0); simpl in *;
          [destruct Hin as [Hin|[]]; discriminate | contradiction].
    - destruct (fs_open_rb fs _) as [content|].
      + destruct (http_request_safe _ r) as [rp r'].
        unfold trace_of, outcome_of; simpl.
        intros [Hin|[Hin|[Hin|[Hin|Hin]]]]; try discriminate.
        * injection Hin as _ ->. unfold after_reply. now rewrite Hc.
        * destruct rp as [|[]]; simpl in *; try contradiction.
          destruct (str_contains _ message0); simpl in *;
            [destruct Hin as [Hin|[]]; discriminate | contradiction].
      + unfold trace_of; simpl. intros [Hin|[]]; discriminate.
    - unfold trace_of; simpl. intros [Hin|[]]; discriminate. }
  split; [exact Hret|].
  simpl for_each.
  destruct (upload (os_path_join h dirpath name) artifact_uri
                   (Some artifact_subdir) r) as [[o r1] t1] eqn:E.
  unfold outcome_of in Hret; simpl in Hret; subst o.
  erewrite bind_returned by exact E. reflexivity.
Qed.

(** C2, as the code has it: when the resolved local directory cannot be
    listed, because it does not exist, [copy_artifacts] raises nothing: it
    returns normally, without a single effect and so without any upload. *)
Theorem missing_directory_returns_normally
    (fuel : nat) (artifact_uri artifact_path : str) (r : Remote) :
  fs_scandir fs (local_dir_of artifact_uri artifact_path) = None ->
  run (S fuel) artifact_uri artifact_path r = (Returned tt, r, []).
Proof.
  intros Hmiss. unfold run, copy_artifacts. cbv zeta.
  unfold local_dir_of, _get_dbfs_endpoint in Hmiss.
  rewrite (os_walk_unlistable h fs fuel _ Hmiss). reflexivity.
Qed.

End UploadProperties.

(** ** The sample run *)

Lemma empty_file_posted_without_opening_witness :
  let file := lit "/dbfs/registry/run123/model/data/model.h5" in
  let tr := trace_of (_copy_artifact Posix sample_fs dbfs_http_request_safe
                        registry_creds file sample_uri
                        (Some (lit "model/data")) []) in
  fs_stat_size sample_fs file = Some 0
  /\ requests_of tr
     = [upload_request Posix (registry_creds (lit "registry")) file sample_uri
                       (Some (lit "model/data")) (DataStr [])]
  /\ opened_in tr = [].
Proof.
  cbv zeta. split; [reflexivity|].
  exact (proj1 (@empty_file_posted_without_opening
                  Posix sample_fs dbfs_store dbfs_http_request_safe
                  registry_creds
                  (lit "/dbfs/registry/run123/model/data/model.h5")
                  sample_uri (Some (lit "model/data")) [] 0 eq_refl)
               eq_refl).
Defined.

Lemma conflict_is_swallowed_witness :
  let stored := [lit "/dbfs/registry/run123/model/MLmodel"] in
  let step := fun n =>
    _copy_artifact Posix sample_fs dbfs_http_request_safe registry_creds
      (os_path_join Posix (lit "/dbfs/registry/run123/model") n)
      sample_uri (Some (lit "model")) in
  outcome_of (step (lit "MLmodel") stored) = Returned tt
  /\ trace_of (for_each [lit "MLmodel"; lit "MLmodel"] step stored)
     = trace_of (step (lit "MLmodel") stored)
       ++ trace_of (step (lit "MLmodel") stored).
Proof.
  cbv zeta.
  destruct (@conflict_is_swallowed
              Posix sample_fs dbfs_store dbfs_http_request_safe registry_creds
              (lit "/dbfs/registry/run123/model") (lit "MLmodel") sample_uri
              (lit "model") [lit "MLmodel"]
              [lit "/dbfs/registry/run123/model/MLmodel"]
              (upload_request Posix (registry_creds (lit "registry"))
                 (lit "/dbfs/registry/run123/model/MLmodel") sample_uri
                 (Some (lit "model"))
                 (DataFile (lit "/dbfs/registry/run123/model/MLmodel")
                           (lit "flavors:")))
              (lit "RESOURCE_ALREADY_EXISTS: File already exists, cannot overwrite"))
    as [Hret Hloop].
  - vm_compute. right; right; left. reflexivity.
  - vm_compute. reflexivity.
  - split; [exact Hret|]. rewrite Hloop. vm_compute. reflexivity.
Defined.

Lemma missing_directory_returns_normally_witness :
  fs_scandir sample_fs (local_dir_of sample_uri (lit "absent")) = None
  /\ copy_artifacts Posix sample_fs dbfs_http_request_safe registry_creds
                    1 sample_uri (lit "absent") []
     = (Returned tt, [], []).
Proof.
  split; [reflexivity|].
  exact (@missing_directory_returns_normally
           Posix sample_fs dbfs_store dbfs_http_request_safe registry_creds
           0 sample_uri (lit "absent") [] eq_refl).
Defined.

Lemma upload_requests_do_not_follow_redirects_witness :
  Forall (fun rq => rq_allow_redirects rq = false)
         (requests_of
            (trace_of (copy_artifacts Posix sample_fs dbfs_http_request_safe
                         registry_creds 2 sample_uri sample_path []))).
Proof.
  apply Forall_forall. intros rq Hin.
  destruct (@upload_requests_do_not_follow_redirects
              Posix sample_fs dbfs_store dbfs_http_request_safe registry_creds)
    as [_ Hrun].
  assert (Hev : exists rp,
             In (EvRequest rq rp)
                (trace_of (copy_artifacts Posix sample_fs
                             dbfs_http_request_safe registry_creds 2
                             sample_uri sample_path []))).
  { revert Hin. vm_compute. intros [<-|[<-|[]]]; eexists; intuition eauto. }
  destruct Hev as [rp Hev]. exact (Hrun 2 sample_uri sample_path [] rq rp Hev).
Defined.

(** C2, as stated, fails: the directory [/dbfs/registry/run123/absent] does
    not exist, and [copy_artifacts] raises no error at all. *)
Lemma missing_directory_raises_nothing :
  fs_scandir sample_fs (local_dir_of sample_uri (lit "absent")) = None
  /\ forall e,
       outcome_of (copy_artifacts Posix sample_fs dbfs_http_request_safe
                                  registry_creds 1 sample_uri (lit "absent") [])
       <> Raised e.
Proof.
  split; [reflexivity|]. intros e. vm_compute. discriminate.
Qed.

(** C5 on the code: the registry refuses the first upload of the sample tree
    with a permission error; the caller of [copy_artifacts] does not receive
    that error but the NameError raised by the call of the unbound name
    [throw]. *)
Theorem other_remote_error_becomes_NameError :
  let res := copy_artifacts Posix sample_fs denying_http_request_safe
                            registry_creds 2 sample_uri sample_path [] in
  replies_of (trace_of res)
  = [Raises (MlflowException
               (lit "PERMISSION_DENIED: token is not allowed to write"))]
  /\ outcome_of res = Raised (NameError (lit "throw"))
  /\ outcome_of res
     <> Raised (MlflowException
                  (lit "PERMISSION_DENIED: token is not allowed to write")).
Proof.
  cbv zeta. split; [vm_compute; reflexivity|].
  split; [vm_compute; reflexivity|]. vm_compute. discriminate.
Qed.

(** ** A failed upload ends the run *)

Lemma request_split_unique (pre post t1 t2 : list event)
    (a c : request) (b d : reply) :
  pre ++ EvRequest a b :: post = t1 ++ EvRequest c d :: t2 ->
  requests_of pre = [] -> requests_of post = [] ->
  t2 = post /\ b = d.
Proof.
  revert t1. induction pre as [|x pre IH]; intros [|y t1] E Hpre Hpost;
    simpl in *.
  - injection E as -> -> ->. auto.
  - injection E as <- ->. rewrite requests_of_app in Hpost. simpl in Hpost.
    destruct (requests_of t1); discriminate.
  - injection E as -> _. discriminate.
  - injection E as -> E. apply (IH t1); auto.
    destruct y; simpl in Hpre; auto; discriminate.
Qed.

Lemma after_reply_failure (e : exn) :
  is_conflict e = false ->
  exists e', fst (after_reply (Raises e)) = Raised e'.
Proof.
  destruct e; simpl; intros H; eauto. rewrite H. simpl. eauto.
Qed.

Lemma after_reply_no_requests (rp : reply) :
  requests_of (snd (after_reply rp)) = [].
Proof.
  destruct rp as [|[]]; simpl; auto. now destruct (str_contains _ message).
Qed.

Lemma no_failed_request_without_requests {Remote A : Type}
    (res : outcome A * Remote * list event) :
  requests_of (trace_of res) = [] -> aborts_on_failure res.
Proof.
  intros H t1 rq e t2 E _. rewrite E, requests_of_app in H. simpl in H.
  destruct (requests_of t1); discriminate.
Qed.

Lemma aborts_on_failure_bind {Remote A B : Type} (m : M Remote A)
    (f : A -> M Remote B) (r : Remote) :
  aborts_on_failure (m r) ->
  (forall a r1, aborts_on_failure (f a r1)) ->
  aborts_on_failure (bind m f r).
Proof.
  intros Hm Hf. unfold bind.
  destruct (m r) as [[[a | e |] r1] tm] eqn:Em.
  - specialize (Hf a r1). destruct (f a r1) as [[o2 r2] tf].
    intros t1 rq e t2 E He. unfold trace_of in E; simpl in E.
    apply app_eq_app in E as [l [[E1 E2] | [E1 E2]]].
    + destruct l as [|ev l]; simpl in E2.
      * apply (Hf [] rq e t2); auto.
      * injection E2 as <- ->.
        destruct (Hm t1 rq e l E1 He) as [_ [e' He']]. discriminate.
    + apply (Hf l rq e t2); auto.
  - intros t1 rq e0 t2 E He. destruct (Hm t1 rq e0 t2 E He) as [H1 _].
    split; [exact H1|]. now exists e.
  - intros t1 rq e0 t2 E He. destruct (Hm t1 rq e0 t2 E He) as [_ [e' H2]].
    discriminate.
Qed.

Lemma aborts_on_failure_for_each {Remote A : Type} (xs : list A)
    (body : A -> M Remote unit) :
  (forall x r, aborts_on_failure (body x r)) ->
  forall r, aborts_on_failure (for_each xs body r).
Proof.
  intros Hb. induction xs as [|x xs IH]; intros r; simpl.
  - now apply no_failed_request_without_requests.
  - apply aborts_on_failure_bind; auto.
Qed.

Section Abort.

Variable h : host.
Variable fs : filesystem.
Variable Remote : Type.
Variable http_request_safe : request -> Remote -> reply * Remote.
Variable get_databricks_host_creds : str -> host_creds.

Let upload := _copy_artifact h fs http_request_safe get_databricks_host_creds.
Let run := copy_artifacts h fs http_request_safe get_databricks_host_creds.

Lemma upload_aborts_on_failure (local_file artifact_uri : str)
    (artifact_path : option str) (r : Remote) :
  aborts_on_failure (upload local_file artifact_uri artifact_path r).
Proof.
  unfold upload. rewrite copy_artifact_unfold. cbv zeta.
  destruct (fs_stat_size fs local_file) as [[|n]|];
    [| destruct (fs_open_rb fs local_file) as [content|] |];
    try (apply no_failed_request_without_requests; reflexivity).
  - destruct (http_request_safe _ r) as [rp r'].
    intros t1 rq e t2 E He. unfold trace_of, outcome_of in *.
    cbn [fst snd] in *.
    apply (request_split_unique [_]) in E as [-> ->];
      auto using after_reply_no_requests.
    split; [apply after_reply_no_requests | now apply after_reply_failure].
  - destruct (http_request_safe _ r) as [rp r'].
    intros t1 rq e t2 E He. unfold trace_of, outcome_of in *.
    cbn [fst snd] in *.
    apply (request_split_unique [_; _]) in E as [-> ->];
      [| reflexivity | apply (after_reply_no_requests rp)].
    split; [apply after_reply_no_requests | now apply after_reply_failure].
Qed.

(** C4: in every run of [copy_artifacts], once the registry has answered an
    upload with an error other than "File already exists", the run is over:
    it raises, and no request is sent for any later file. *)
Theorem failed_upload_aborts_the_run
    (fuel : nat) (artifact_uri artifact_path : str) (r : Remote)
    (t1 t2 : list event) (rq : request) (e : exn) :
  trace_of (run fuel artifact_uri artifact_path r)
  = t1 ++ EvRequest rq (Raises e) :: t2 ->
  is_conflict e = false ->
  requests_of t2 = []
  /\ exists e', outcome_of (run fuel artifact_uri artifact_path r) = Raised e'.
Proof.
  revert t1 rq e t2.
  change (aborts_on_failure (run fuel artifact_uri artifact_path r)).
  unfold run, copy_artifacts. cbv zeta.
  destruct (os_walk fuel h fs _) as [entries|];
    [|now apply no_failed_request_without_requests].
  apply aborts_on_failure_for_each. intros [[dirpath dirs] filenames] r1.
  apply aborts_on_failure_bind.
  - apply no_failed_request_without_requests.
    destruct (negb _); [|reflexivity].
    destruct (os_path_relpath _ _ _ _) as [e|rel]; [reflexivity|].
    unfold bind; simpl.
    destruct (relative_path_to_artifact_path _ _ _); reflexivity.
  - intros subdir r2. apply aborts_on_failure_for_each.
    intros name r3. apply upload_aborts_on_failure.
Qed.

End Abort.

Lemma failed_upload_aborts_the_run_witness :
  let res := copy_artifacts Posix sample_fs denying_http_request_safe
                            registry_creds 2 sample_uri sample_path [] in
  requests_of (trace_of res)
  = [upload_request Posix (registry_creds (lit "registry"))
       (lit "/dbfs/registry/run123/model/MLmodel") sample_uri
       (Some (lit "model"))
       (DataFile (lit "/dbfs/registry/run123/model/MLmodel") (lit "flavors:"))]
  /\ requests_of [EvClose (lit "/dbfs/registry/run123/model/MLmodel")] = []
  /\ exists e', outcome_of res = Raised e'.
Proof.
  cbv zeta. split; [vm_compute; reflexivity|].
  refine (@failed_upload_aborts_the_run
            Posix sample_fs dbfs_store denying_http_request_safe registry_creds
            2 sample_uri sample_path []
            [copying_line Posix (lit "/dbfs/registry/run123/model/MLmodel")
                          sample_uri (Some (lit "model"));
             EvOpen (lit "/dbfs/registry/run123/model/MLmodel")]
            [EvClose (lit "/dbfs/registry/run123/model/MLmodel")]
            (upload_request Posix (registry_creds (lit "registry"))
               (lit "/dbfs/registry/run123/model/MLmodel") sample_uri
               (Some (lit "model"))
               (DataFile (lit "/dbfs/registry/run123/model/MLmodel")
                         (lit "flavors:")))
            (MlflowException
               (lit "PERMISSION_DENIED: token is not allowed to write"))
            _ _).
  - vm_compute. reflexivity.
  - vm_compute. reflexivity.
Defined.

(** ** The loops of [copy_artifacts] *)

Lemma bind_lift {Remote A B : Type} (x : exn + A) (f : A -> M Remote B)
    (r : Remote) :
  bind (lift x) f r
  = match x with
    | inl e => (Raised e, r, [])
    | inr a => f a r
    end.
Proof.
  destruct x as [e|a]; unfold bind, lift, raise, ret; [reflexivity|].
  now destruct (f a r) as [[o r2] t2].
Qed.

Lemma for_each_ext {Remote A : Type} (xs : list A)
    (body1 body2 : A -> M Remote unit) :
  (forall x r, body1 x r = body2 x r) ->
  forall r, for_each xs body1 r = for_each xs body2 r.
Proof.
  intros Hb. induction xs as [|x xs IH]; intros r; simpl; [reflexivity|].
  unfold bind. rewrite Hb. destruct (body2 x r) as [[[[] | e |] r1] t1]; auto.
  now rewrite IH.
Qed.

(** [copy_artifacts] as two nested loops over the walk, the sub-directory of
    each entry computed by [artifact_subdir_of]. *)
Lemma copy_artifacts_unfold (h : host) (fs : filesystem) (Remote : Type)
    (http_request_safe : request -> Remote -> reply * Remote)
    (get_databricks_host_creds : str -> host_creds)
    (fuel : nat) (artifact_uri artifact_path : str) (r : Remote) :
  copy_artifacts h fs http_request_safe get_databricks_host_creds
                 fuel artifact_uri artifact_path r
  = match os_walk fuel h fs (local_dir_of artifact_uri artifact_path) with
    | None => (OutOfFuel, r, [])
    | Some entries =>
        for_each entries
          (fun entry =>
             bind (lift (artifact_subdir_of
                           h (fs_getcwd fs)
                           (local_dir_of artifact_uri artifact_path)
                           (str_or_empty artifact_path) (fst (fst entry))))
                  (fun artifact_subdir =>
                     for_each (snd entry)
                       (fun name =>
                          _copy_artifact h fs http_request_safe
                            get_databricks_host_creds
                            (os_path_join h (fst (fst entry)) name)
                            artifact_uri (Some artifact_subdir))))
          r
    end.
Proof.
  unfold copy_artifacts, local_dir_of, _get_dbfs_endpoint. cbv zeta.
  destruct (os_walk fuel h fs _) as [entries|]; [|reflexivity].
  apply for_each_ext. intros [[dirpath dirs] filenames] r1.
  cbn [fst snd]. rewrite bind_lift. unfold artifact_subdir_of.
  destruct (negb _).
  - unfold bind at 1. rewrite bind_lift.
    destruct (os_path_relpath _ _ _ _) as [e|rel]; [reflexivity|].
    cbn [lift]. unfold ret at 1. rewrite bind_lift.
    destruct (relative_path_to_artifact_path _ _ _) as [e|rel'];
      [reflexivity|].
    unfold ret.
    now destruct (for_each filenames _ r1) as [[o r2] t2].
  - unfold bind, ret.
    now destruct (for_each filenames _ r1) as [[o r2] t2].
Qed.

(** ** Running [copy_artifacts] twice *)

Section Rerun.

Variable h : host.
Variable fs : filesystem.
Variable Remote : Type.
Variable http_request_safe : request -> Remote -> reply * Remote.
Variable get_databricks_host_creds : str -> host_creds.

(** The registry workspace as the notebook relies on it: an answered or
    refused-as-existing upload leaves an object at the endpoint, objects stay,
    and an upload to an endpoint that holds an object is refused with
    "File already exists". *)
Variable stored : Remote -> str -> Prop.
Hypothesis upload_creates : forall rq r r',
  http_request_safe rq r = (Replied, r') -> stored r' (rq_endpoint rq).
Hypothesis conflict_means_stored : forall rq r r' e,
  http_request_safe rq r = (Raises e, r') -> is_conflict e = true ->
  stored r' (rq_endpoint rq).
Hypothesis objects_stay : forall rq r ep,
  stored r ep -> stored (snd (http_request_safe rq r)) ep.
Hypothesis stored_is_refused : forall rq r,
  stored r (rq_endpoint rq) ->
  exists e, fst (http_request_safe rq r) = Raises e /\ is_conflict e = true.

Let upload := _copy_artifact h fs http_request_safe get_databricks_host_creds.
Let run := copy_artifacts h fs http_request_safe get_databricks_host_creds.

Lemma keeps_seq {A B : Type} (m : M Remote A) (f : A -> M Remote B) :
  keeps stored m -> (forall a, keeps stored (f a)) -> keeps stored (bind m f).
Proof.
  intros Hm Hf r ep Hep. specialize (Hm r ep Hep). unfold bind.
  destruct (m r) as [[[a | e |] r1] t1]; auto.
  specialize (Hf a r1 ep Hm). now destruct (f a r1) as [[o r2] t2].
Qed.

Lemma keeps_for_each {A : Type} (xs : list A) (body : A -> M Remote unit) :
  (forall x, keeps stored (body x)) -> keeps stored (for_each xs body).
Proof.
  intros Hb. induction xs as [|x xs IH]; simpl.
  - intros r ep Hep. exact Hep.
  - apply keeps_seq; auto.
Qed.

Lemma keeps_lift {A : Type} (x : exn + A) : keeps stored (lift x).
Proof. intros r ep Hep. now destruct x. Qed.

Lemma reruns_seq (m k : M Remote unit) :
  keeps stored m -> keeps stored k ->
  reruns stored m -> reruns stored k ->
  reruns stored (m ;;; k).
Proof.
  intros Km Kk Rm Rk r r2 t E r' Hr'. unfold bind in E.
  destruct (m r) as [[[[] | e |] r1] tm] eqn:Em; try discriminate.
  destruct (k r1) as [[ok rk] tk] eqn:Ek. injection E as -> -> <-.
  assert (H12 : holds_at_least stored r1 r2).
  { intros ep Hep. specialize (Kk r1 ep Hep). now rewrite Ek in Kk. }
  destruct (Rm r r1 tm Em r') as (ra & ta & Ea & Ca & Qa).
  { intros ep Hep. auto. }
  destruct (Rk r1 r2 tk Ek ra) as (rb & tb & Eb & Cb & Qb).
  { intros ep Hep. specialize (Km r' ep (Hr' ep Hep)). now rewrite Ea in Km. }
  exists rb, (ta ++ tb). unfold bind. rewrite Ea, Eb. split; [reflexivity|].
  split.
  - unfold all_conflicts in *. rewrite replies_of_app. now apply Forall_app.
  - rewrite !requests_of_app. congruence.
Qed.

Lemma reruns_for_each {A : Type} (xs : list A) (body : A -> M Remote unit) :
  (forall x, keeps stored (body x)) ->
  (forall x, reruns stored (body x)) ->
  reruns stored (for_each xs body).
Proof.
  intros Kb Rb. induction xs as [|x xs IH]; simpl.
  - intros r r1 t1 E r' _. injection E as <- <-.
    exists r', []. repeat split. constructor.
  - apply reruns_seq; auto using keeps_for_each.
Qed.

Lemma reruns_after_lift {A : Type} (x : exn + A) (f : A -> M Remote unit) :
  (forall a, reruns stored (f a)) -> reruns stored (bind (lift x) f).
Proof.
  intros Rf r r1 t1 E r' Hr'. rewrite bind_lift in *.
  destruct x as [e|a]; [discriminate|]. exact (Rf a r r1 t1 E r' Hr').
Qed.

Lemma upload_keeps (local_file artifact_uri : str)
    (artifact_path : option str) :
  keeps stored (upload local_file artifact_uri artifact_path).
Proof.
  intros r ep Hep. unfold upload. rewrite copy_artifact_unfold. cbv zeta.
  destruct (fs_stat_size fs local_file) as [[|n]|];
    [| destruct (fs_open_rb fs local_file) as [content|] |]; auto.
  - pose proof (@objects_stay (upload_request h
      (get_databricks_host_creds (lit "registry")) local_file artifact_uri
      artifact_path (DataStr [])) r ep Hep) as Hs.
    now destruct (http_request_safe _ r) as [rp r'].
  - pose proof (@objects_stay (upload_request h
      (get_databricks_host_creds (lit "registry")) local_file artifact_uri
      artifact_path (DataFile local_file content)) r ep Hep) as Hs.
    now destruct (http_request_safe _ r) as [rp r'].
Qed.

Lemma after_reply_returned (rp : reply) :
  fst (after_reply rp) = Returned tt ->
  rp = Replied \/ exists e, rp = Raises e /\ is_conflict e = true.
Proof.
  destruct rp as [|e]; [now left|]. right. exists e. split; [reflexivity|].
  destruct e; simpl in *; try discriminate.
  now destruct (str_contains _ message).
Qed.

Lemma after_reply_conflict (e : exn) :
  is_conflict e = true ->
  fst (after_reply (Raises e)) = Returned tt
  /\ replies_of (snd (after_reply (Raises e))) = []
  /\ requests_of (snd (after_reply (Raises e))) = [].
Proof.
  destruct e; simpl; try discriminate. now intros ->.
Qed.

(** What is needed of one request for the upload around it to rerun. *)
Lemma request_reruns (rq : request) (r r1 : Remote) (rp : reply) :
  http_request_safe rq r = (rp, r1) ->
  fst (after_reply rp) = Returned tt ->
  forall r', holds_at_least stored r1 r' ->
  exists e, fst (http_request_safe rq r') = Raises e /\ is_conflict e = true.
Proof.
  intros E Hret r' Hr'. apply stored_is_refused, Hr'.
  destruct (after_reply_returned _ Hret) as [-> | (e & -> & He)]; eauto.
Qed.

Local Arguments after_reply : simpl never.

Lemma upload_reruns (local_file artifact_uri : str)
    (artifact_path : option str) :
  reruns stored (upload local_file artifact_uri artifact_path).
Proof.
  intros r r1 t1 E r' Hr'. unfold upload in *.
  rewrite copy_artifact_unfold in *. cbv zeta in *.
  destruct (fs_stat_size fs local_file) as [[|n]|];
    [| destruct (fs_open_rb fs local_file) as [content|] |];
    try discriminate.
  - destruct (http_request_safe _ r) as [rp ra] eqn:Ea.
    injection E as Hret -> <-.
    destruct (@request_reruns _ _ _ _ Ea Hret r' Hr') as (e & He & Hc).
    destruct (http_request_safe _ r') as [rp' rb]. simpl in He. subst rp'.
    destruct (after_reply_conflict _ Hc) as (H1 & H2 & H3).
    eexists _, _. rewrite H1. split; [reflexivity|]. split.
    + unfold all_conflicts. simpl. rewrite H2. constructor; [|constructor].
      exact Hc.
    + simpl. now rewrite H3, after_reply_no_requests.
  - destruct (http_request_safe _ r) as [rp ra] eqn:Ea.
    injection E as Hret -> <-.
    destruct (@request_reruns _ _ _ _ Ea Hret r' Hr') as (e & He & Hc).
    destruct (http_request_safe _ r') as [rp' rb]. simpl in He. subst rp'.
    destruct (after_reply_conflict _ Hc) as (H1 & H2 & H3).
    eexists _, _. rewrite H1. split; [reflexivity|]. split.
    + unfold all_conflicts. simpl. rewrite H2. constructor; [|constructor].
      exact Hc.
    + simpl. now rewrite H3, after_reply_no_requests.
Qed.

(** C7: against a registry that keeps its objects and refuses to overwrite
    them, a run of [copy_artifacts] that completed can be run again on the
    same source tree: the second run sends the same uploads, each of them is
    answered by the conflict, and the run completes normally. *)
Theorem second_run_completes_on_conflicts
    (fuel : nat) (artifact_uri artifact_path : str)
    (r0 r1 : Remote) (t1 : list event) :
  run fuel artifact_uri artifact_path r0 = (Returned tt, r1, t1) ->
  exists r2 t2,
    run fuel artifact_uri artifact_path r1 = (Returned tt, r2, t2)
    /\ all_conflicts t2
    /\ requests_of t2 = requests_of t1.
Proof.
  intros E. unfold run in *. rewrite copy_artifacts_unfold in *.
  destruct (os_walk fuel h fs _) as [entries|]; [|discriminate].
  match type of E with
  | for_each ?xs ?body _ = _ =>
      assert (R : reruns stored (for_each xs body))
  end.
  { apply reruns_for_each.
    - intros entry. apply keeps_seq; [apply keeps_lift|].
      intros subdir. apply keeps_for_each. intros name. apply upload_keeps.
    - intros entry. apply reruns_after_lift. intros subdir.
      apply reruns_for_each; intros name;
        [apply upload_keeps | apply upload_reruns]. }
  apply (R r0 r1 t1 E r1). intros ep Hep. exact Hep.
Qed.

End Rerun.

(** The DBFS-like store is such a registry. *)
Lemma dbfs_upload_creates (rq : request) (r r' : dbfs_store) :
  dbfs_http_request_safe rq r = (Replied, r') ->
  dbfs_holds r' (rq_endpoint rq) = true.
Proof.
  unfold dbfs_http_request_safe.
  destruct (dbfs_holds r (rq_endpoint rq)); [discriminate|].
  intros E. injection E as <-. unfold dbfs_holds. simpl.
  now rewrite str_eqb_refl.
Qed.

Lemma dbfs_conflict_means_stored (rq : request) (r r' : dbfs_store) (e : exn) :
  dbfs_http_request_safe rq r = (Raises e, r') ->
  is_conflict e = true ->
  dbfs_holds r' (rq_endpoint rq) = true.
Proof.
  unfold dbfs_http_request_safe.
  destruct (dbfs_holds r (rq_endpoint rq)) eqn:H; [|discriminate].
  intros E _. now injection E as _ <-.
Qed.

Lemma dbfs_objects_stay (rq : request) (r : dbfs_store) (ep : str) :
  dbfs_holds r ep = true ->
  dbfs_holds (snd (dbfs_http_request_safe rq r)) ep = true.
Proof.
  unfold dbfs_http_request_safe. intros H.
  destruct (dbfs_holds r (rq_endpoint rq)); simpl; [exact H|].
  unfold dbfs_holds in *. simpl. rewrite H. apply orb_true_r.
Qed.

Lemma dbfs_stored_is_refused (rq : request) (r : dbfs_store) :
  dbfs_holds r (rq_endpoint rq) = true ->
  exists e, fst (dbfs_http_request_safe rq r) = Raises e
            /\ is_conflict e = true.
Proof.
  unfold dbfs_http_request_safe. intros ->. simpl. eexists. split.
  - reflexivity.
  - vm_compute. reflexivity.
Qed.

Lemma second_run_completes_on_conflicts_witness :
  let run := copy_artifacts Posix sample_fs dbfs_http_request_safe
                            registry_creds 2 sample_uri sample_path in
  outcome_of (run []) = Returned tt
  /\ exists r2 t2,
       run (remote_of (run [])) = (Returned tt, r2, t2)
       /\ all_conflicts t2
       /\ requests_of t2 = requests_of (trace_of (run [])).
Proof.
  cbv zeta. split; [vm_compute; reflexivity|].
  apply (@second_run_completes_on_conflicts
           Posix sample_fs dbfs_store dbfs_http_request_safe registry_creds
           (fun r ep => dbfs_holds r ep = true)
           dbfs_upload_creates dbfs_conflict_means_stored
           dbfs_objects_stay dbfs_stored_is_refused
           2 sample_uri sample_path []).
  vm_compute. reflexivity.
Defined.

(** ** Splitting and joining *)

Lemma split_on_not_nil (p : ascii -> bool) (s : str) : split_on p s <> [].
Proof.
  destruct s as [|c s]; simpl; [discriminate|].
  destruct (p c); [discriminate|]. destruct (split_on p s); discriminate.
Qed.

Lemma split_on_ext (p q : ascii -> bool) (s : str) :
  (forall c, p c = q c) -> split_on p s = split_on q s.
Proof.
  intros H. induction s as [|c s IH]; simpl; [reflexivity|].
  now rewrite H, IH.
Qed.

Lemma split_on_free (p : ascii -> bool) (s : str) :
  forallb (fun c => negb (p c)) s = true -> split_on p s = [s].
Proof.
  induction s as [|c s IH]; simpl; [reflexivity|].
  intros H. apply andb_true_iff in H as [Hc Hs].
  apply negb_true_iff in Hc. now rewrite Hc, IH.
Qed.

Lemma split_on_app_sep (p : ascii -> bool) (a b : str) (c : ascii) :
  p c = true ->
  split_on p (a ++ c :: b) = split_on p a ++ split_on p b.
Proof.
  intros Hc. induction a as [|x a IH]; simpl.
  - now rewrite Hc.
  - rewrite IH. destruct (p x); [reflexivity|].
    pose proof (split_on_not_nil p a) as Hn.
    destruct (split_on p a); [contradiction|]. reflexivity.
Qed.

Lemma split_on_sep_last (p : ascii -> bool) (a : str) (c : ascii) :
  p c = true -> split_on p (a ++ [c]) = split_on p a ++ [[]].
Proof. intros Hc. now rewrite split_on_app_sep. Qed.

Lemma split_on_join (p : ascii -> bool) (c : ascii) (x : str)
    (xs : list str) :
  p c = true ->
  Forall (fun w => forallb (fun c => negb (p c)) w = true) (x :: xs) ->
  split_on p (join_with [c] (x :: xs)) = x :: xs.
Proof.
  intros Hc. revert x. induction xs as [|y xs IH]; intros x Hall.
  - simpl. apply split_on_free. now inversion Hall.
  - change (join_with [c] (x :: y :: xs))
      with (x ++ c :: join_with [c] (y :: xs)).
    rewrite split_on_app_sep by exact Hc.
    inversion Hall as [|? ? Hx Hrest]; subst.
    now rewrite (split_on_free _ _ Hx), IH.
Qed.

Lemma join_with_cons (sep x : str) (xs : list str) :
  join_with sep (x :: xs) = x ++ flat_map (fun w => sep ++ w) xs.
Proof.
  revert x. induction xs as [|y xs IH]; intros x.
  - simpl. now rewrite app_nil_r.
  - change (join_with sep (x :: y :: xs))
      with (x ++ sep ++ join_with sep (y :: xs)).
    rewrite IH. simpl. now rewrite <- !app_assoc.
Qed.

Lemma rev_snoc_inv (s : str) (c : ascii) (tl : str) :
  rev s = c :: tl -> s = rev tl ++ [c].
Proof.
  intros H. rewrite <- (rev_involutive s), H. reflexivity.
Qed.

(** ** Names of directory entries *)

Lemma clean_of_valid (h : host) (n : str) :
  valid_name h n = true -> clean h n = true.
Proof.
  unfold valid_name, clean. intros H.
  apply andb_true_iff in H as [H Hf]. rewrite H. simpl.
  rewrite forallb_forall in *. intros c Hc. specialize (Hf c Hc).
  unfold is_reserved in Hf. apply negb_true_iff in Hf.
  apply orb_false_iff in Hf as [Hf _]. now rewrite Hf.
Qed.

Lemma clean_facts (h : host) (n : str) :
  clean h n = true ->
  n <> [] /\ str_eqb n [] = false /\ str_eqb n dot = false
  /\ str_eqb n dotdot = false
  /\ forallb (fun c => negb (is_sep h c)) n = true.
Proof.
  unfold clean. intros H.
  apply andb_true_iff in H as [H Hf].
  apply andb_true_iff in H as [H Hdd].
  apply andb_true_iff in H as [Hne Hd].
  apply negb_true_iff in Hd, Hdd.
  destruct n; [discriminate|]. repeat split; auto. discriminate.
Qed.

Lemma clean_starts (h : host) (n : str) :
  clean h n = true -> starts_with_sep h n = false.
Proof.
  intros H. destruct (clean_facts _ _ H) as (Hn & _ & _ & _ & Hf).
  destruct n as [|c n]; [reflexivity|]. simpl in *.
  apply andb_true_iff in Hf as [Hc _]. now apply negb_true_iff in Hc.
Qed.

Lemma clean_ends (h : host) (n : str) :
  clean h n = true -> ends_with_sep h n = false.
Proof.
  intros H. destruct (clean_facts _ _ H) as (_ & _ & _ & _ & Hf).
  unfold ends_with_sep. destruct (rev n) as [|c tl] eqn:E; [reflexivity|].
  rewrite forallb_forall in Hf. apply negb_true_iff, Hf.
  apply in_rev. rewrite E. now left.
Qed.

Lemma is_sep_os_sep (h : host) : is_sep h (os_sep h) = true.
Proof. now destruct h. Qed.

Lemma is_sep_slash (h : host) : is_sep h chr_slash = true.
Proof. now destruct h. Qed.

(** ** Joining a name to a directory *)

Lemma os_path_join_name (h : host) (a n : str) :
  clean h n = true ->
  os_path_join h a n
  = if negb (nonempty a) || ends_with_sep h a then a ++ n
    else a ++ [os_sep h] ++ n.
Proof.
  intros H. unfold os_path_join. now rewrite (clean_starts _ _ H).
Qed.

Lemma path_at_snoc (h : host) (top : str) (chain : list str) (n : str) :
  path_at h top (chain ++ [n]) = os_path_join h (path_at h top chain) n.
Proof. unfold path_at. now rewrite fold_left_app. Qed.

Lemma starts_with_sep_app (h : host) (a b : str) :
  starts_with_sep h a = true -> starts_with_sep h (a ++ b) = true.
Proof. now destruct a. Qed.

Lemma os_path_join_rooted (h : host) (a n : str) :
  clean h n = true -> starts_with_sep h a = true ->
  starts_with_sep h (os_path_join h a n) = true.
Proof.
  intros Hn Ha. rewrite os_path_join_name by exact Hn.
  destruct (negb (nonempty a) || ends_with_sep h a);
    now apply starts_with_sep_app.
Qed.

Lemma os_path_join_longer (h : host) (a n : str) :
  clean h n = true ->
  List.length a < List.length (os_path_join h a n).
Proof.
  intros Hn. rewrite os_path_join_name by exact Hn.
  destruct (clean_facts _ _ Hn) as (Hne & _).
  destruct n; [contradiction|].
  destruct (negb (nonempty a) || ends_with_sep h a);
    rewrite !length_app; simpl; lia.
Qed.

Lemma path_at_rooted (h : host) (top : str) (chain : list str) :
  Forall (fun n => clean h n = true) chain ->
  starts_with_sep h top = true ->
  starts_with_sep h (path_at h top chain) = true.
Proof.
  unfold path_at. revert top.
  induction chain as [|n chain IH]; intros top Hall Htop; simpl; auto.
  inversion Hall; subst. apply IH; auto. now apply os_path_join_rooted.
Qed.

Lemma path_at_longer (h : host) (top : str) (chain : list str) :
  Forall (fun n => clean h n = true) chain ->
  chain <> [] ->
  List.length top < List.length (path_at h top chain).
Proof.
  unfold path_at. revert top.
  induction chain as [|n chain IH]; intros top Hall Hne; [contradiction|].
  inversion Hall; subst. simpl.
  pose proof (os_path_join_longer h top n H1).
  destruct chain as [|m chain]; [assumption|].
  specialize (IH (os_path_join h top n) H2). simpl in *.
  assert (m :: chain <> []) as Hm by discriminate.
  specialize (IH Hm). lia.
Qed.

Lemma path_at_differs (h : host) (top : str) (chain : list str) :
  Forall (fun n => clean h n = true) chain ->
  chain <> [] ->
  str_eqb (path_at h top chain) top = false.
Proof.
  intros Hall Hne. apply str_eqb_neq. intros E.
  pose proof (path_at_longer h top Hall Hne) as Hl. rewrite E in Hl. lia.
Qed.

(** ** basename *)

Lemma take_while_free_app (p : ascii -> bool) (a rest : str) :
  forallb p a = true ->
  match rest with [] => True | c :: _ => p c = false end ->
  take_while p (a ++ rest) = a.
Proof.
  intros Ha Hr. induction a as [|x a IH]; simpl in *.
  - destruct rest as [|c rest]; [reflexivity|]. simpl. now rewrite Hr.
  - apply andb_true_iff in Ha as [Hx Ha]. now rewrite Hx, IH.
Qed.

Lemma os_path_basename_join (h : host) (a n : str) :
  clean h n = true -> os_path_basename h (os_path_join h a n) = n.
Proof.
  intros Hn. rewrite os_path_join_name by exact Hn.
  destruct (clean_facts _ _ Hn) as (_ & _ & _ & _ & Hf).
  assert (Hrev : forallb (fun c => negb (is_sep h c)) (rev n) = true).
  { rewrite forallb_forall in *. intros c Hc. apply Hf. now apply in_rev. }
  unfold os_path_basename, ends_with_sep.
  destruct (nonempty a) eqn:Ha; simpl negb; simpl orb.
  - destruct (rev a) as [|c tl] eqn:Er.
    + apply (f_equal (@rev ascii)) in Er. rewrite rev_involutive in Er.
      subst a. discriminate.
    + destruct (is_sep h c) eqn:Hc.
      * rewrite rev_app_distr, Er, take_while_free_app; auto.
        -- apply rev_involutive.
        -- now rewrite Hc.
      * rewrite !rev_app_distr. simpl. rewrite <- app_assoc.
        rewrite take_while_free_app; auto.
        -- apply rev_involutive.
        -- simpl. now rewrite is_sep_os_sep.
  - destruct a; [|discriminate]. simpl.
    rewrite <- (app_nil_r (rev n)), take_while_free_app; auto.
    apply rev_involutive.
Qed.

(** ** The components of a normalised path *)

Lemma norm_step_skip (b : bool) (stack : list str) :
  norm_step b stack [] = stack.
Proof. reflexivity. Qed.

Lemma norm_step_clean (h : host) (b : bool) (stack : list str) (n : str) :
  clean h n = true -> norm_step b stack n = stack ++ [n].
Proof.
  intros H. destruct (clean_facts _ _ H) as (_ & H0 & H1 & H2 & _).
  unfold norm_step. now rewrite H0, H1, H2.
Qed.

Lemma fold_norm_step_clean (h : host) (b : bool) (xs stack : list str) :
  Forall (fun n => clean h n = true) xs ->
  fold_left (norm_step b) xs stack = stack ++ xs.
Proof.
  revert stack. induction xs as [|x xs IH]; intros stack Hall; simpl.
  - now rewrite app_nil_r.
  - inversion Hall; subst.
    rewrite (norm_step_clean h) by assumption.
    rewrite IH by assumption. now rewrite <- app_assoc.
Qed.

(** The fields of a split hold no separator. *)
Lemma split_on_fields_free (p : ascii -> bool) (s : str) :
  Forall (fun w => forallb (fun c => negb (p c)) w = true) (split_on p s).
Proof.
  induction s as [|c s IH]; simpl.
  - repeat constructor.
  - destruct (p c) eqn:Hc; [constructor; auto|].
    destruct (split_on p s) as [|w ws]; [repeat constructor; simpl;
      now rewrite Hc|].
    inversion IH; subst. constructor; auto. simpl. now rewrite Hc.
Qed.

Lemma removelast_Forall {A : Type} (P : A -> Prop) (l : list A) :
  Forall P l -> Forall P (removelast l).
Proof.
  induction l as [|x l IH]; intros H; simpl; [constructor|].
  inversion H; subst. destruct l; [constructor|]. constructor; auto.
Qed.

(** On an absolute path one step of [normpath] keeps the stack clean. *)
Lemma norm_step_rooted_clean (h : host) (stack : list str) (comp : str) :
  forallb (fun c => negb (is_sep h c)) comp = true ->
  Forall (fun n => clean h n = true) stack ->
  Forall (fun n => clean h n = true) (norm_step true stack comp).
Proof.
  intros Hfree Hst. unfold norm_step.
  destruct (str_eqb comp [] || str_eqb comp dot) eqn:H0; [assumption|].
  apply orb_false_iff in H0 as [He Hd].
  destruct (str_eqb comp dotdot) eqn:Hdd; simpl.
  - destruct (rev stack) as [|l tl] eqn:Er.
    + now apply removelast_Forall.
    + assert (Hl : clean h l = true).
      { rewrite Forall_forall in Hst. apply Hst, in_rev. rewrite Er.
        now left. }
      destruct (clean_facts _ _ Hl) as (_ & _ & _ & Hldd & _).
      rewrite Hldd. now apply removelast_Forall.
  - apply Forall_app. split; [assumption|]. constructor; [|constructor].
    unfold clean. rewrite Hd, Hdd, Hfree.
    destruct comp; [discriminate|reflexivity].
Qed.

Lemma fold_norm_step_rooted_clean (h : host) (comps stack : list str) :
  Forall (fun w => forallb (fun c => negb (is_sep h c)) w = true) comps ->
  Forall (fun n => clean h n = true) stack ->
  Forall (fun n => clean h n = true) (fold_left (norm_step true) comps stack).
Proof.
  revert stack. induction comps as [|c comps IH]; intros stack Hc Hs; simpl.
  - assumption.
  - inversion Hc; subst. apply IH; auto.
    now apply norm_step_rooted_clean.
Qed.

Lemma path_stack_clean (h : host) (p : str) :
  Forall (fun n => clean h n = true) (path_stack h p).
Proof.
  apply fold_norm_step_rooted_clean; [apply split_on_fields_free|constructor].
Qed.

(** The stack of a directory of the walk: that of [top], then the chain. *)
Lemma path_stack_join (h : host) (a n : str) :
  clean h n = true ->
  path_stack h (os_path_join h a n) = path_stack h a ++ [n].
Proof.
  intros Hn. rewrite os_path_join_name by exact Hn.
  destruct (clean_facts _ _ Hn) as (_ & _ & _ & _ & Hf).
  unfold path_stack.
  destruct (nonempty a) eqn:Ha; simpl negb; simpl orb.
  - unfold ends_with_sep. destruct (rev a) as [|c tl] eqn:Er.
    + apply (f_equal (@rev ascii)) in Er. rewrite rev_involutive in Er.
      subst a. discriminate.
    + apply rev_snoc_inv in Er. subst a.
      destruct (is_sep h c) eqn:Hc.
      * rewrite <- app_assoc. simpl.
        rewrite split_on_app_sep, split_on_sep_last by exact Hc.
        rewrite (split_on_free _ _ Hf), !fold_left_app. simpl.
        now rewrite (norm_step_clean h) by exact Hn.
      * simpl. rewrite split_on_app_sep by apply is_sep_os_sep.
        rewrite (split_on_free _ _ Hf), fold_left_app. simpl.
        now rewrite (norm_step_clean h) by exact Hn.
  - destruct a; [|discriminate]. simpl.
    rewrite (split_on_free _ _ Hf). simpl.
    now rewrite (norm_step_clean h) by exact Hn.
Qed.

Lemma path_stack_path_at (h : host) (top : str) (chain : list str) :
  Forall (fun n => clean h n = true) chain ->
  path_stack h (path_at h top chain) = path_stack h top ++ chain.
Proof.
  unfold path_at. revert top.
  induction chain as [|n chain IH]; intros top Hall; simpl.
  - now rewrite app_nil_r.
  - inversion Hall; subst. rewrite IH by assumption.
    rewrite path_stack_join by assumption. now rewrite <- app_assoc.
Qed.

(** ** Absolute paths and their components *)

Lemma split_on_leading (p : ascii -> bool) (c : ascii) (k : nat) (s : str) :
  p c = true ->
  split_on p (repeat c k ++ s) = repeat [] k ++ split_on p s.
Proof.
  intros Hc. induction k as [|k IH]; simpl; [reflexivity|].
  now rewrite Hc, IH.
Qed.

Lemma filter_nonempty_leading (k : nat) (xs : list str) :
  filter nonempty (repeat [] k ++ xs) = filter nonempty xs.
Proof. induction k as [|k IH]; simpl; auto. Qed.

Lemma filter_nonempty_all (xs : list str) :
  Forall (fun w => nonempty w = true) xs -> filter nonempty xs = xs.
Proof.
  induction xs as [|x xs IH]; intros H; simpl; [reflexivity|].
  inversion H as [|? ? Hx Hxs]; subst. now rewrite Hx, IH.
Qed.

(** Splitting a path in normal form gives back its components. *)
Lemma components_of_normal_form (p : ascii -> bool) (c : ascii) (k : nat)
    (stack : list str) :
  p c = true ->
  Forall (fun w => nonempty w = true
                   /\ forallb (fun c => negb (p c)) w = true) stack ->
  filter nonempty (split_on p (repeat c k ++ join_with [c] stack)) = stack.
Proof.
  intros Hc Hst. rewrite split_on_leading, filter_nonempty_leading by exact Hc.
  destruct stack as [|x xs]; [reflexivity|].
  rewrite split_on_join; auto.
  - apply filter_nonempty_all. eapply Forall_impl; [|exact Hst].
    now intros w [Hw _].
  - eapply Forall_impl; [|exact Hst]. now intros w [_ Hw].
Qed.

Lemma clean_nonempty_free (h : host) (p : ascii -> bool) (stack : list str) :
  (forall c, p c = true -> is_sep h c = true) ->
  Forall (fun n => clean h n = true) stack ->
  Forall (fun w => nonempty w = true
                   /\ forallb (fun c => negb (p c)) w = true) stack.
Proof.
  intros Hp Hst. eapply Forall_impl; [|exact Hst]. intros w Hw.
  destruct (clean_facts _ _ Hw) as (Hne & _ & _ & _ & Hf).
  split; [destruct w; [contradiction|reflexivity]|].
  rewrite forallb_forall in *. intros c Hc. specialize (Hf c Hc).
  apply negb_true_iff in Hf. apply negb_true_iff.
  destruct (p c) eqn:E; [|reflexivity]. apply Hp in E. congruence.
Qed.

Lemma eqb_slash_is_sep_posix (c : ascii) :
  Ascii.eqb chr_slash c = is_sep Posix c.
Proof. apply Ascii.eqb_sym. Qed.

Lemma posix_normpath_rooted (p : str) :
  starts_with_sep Posix p = true ->
  exists k,
    os_path_normpath Posix p
    = repeat chr_slash (S k) ++ join_with [chr_slash] (path_stack Posix p).
Proof.
  intros Hr. destruct p as [|c p]; [discriminate|]. simpl in Hr.
  apply Ascii.eqb_eq in Hr. subst c.
  unfold os_path_normpath. cbn [nonempty negb].
  change (startswith (chr_slash :: p) (lit "/")) with true. cbv iota.
  set (k := if startswith (chr_slash :: p) (lit "//")
               && negb (startswith (chr_slash :: p) (lit "///"))
            then 2 else 1).
  assert (Hk : exists j, k = S j).
  { subst k. destruct (_ && _); eauto. }
  destruct Hk as [j Hj]. rewrite Hj. exists j.
  change (0 <? S j) with true.
  rewrite (split_on_ext _ (is_sep Posix) _ eqb_slash_is_sep_posix).
  reflexivity.
Qed.

Lemma posix_absolute_components (cwd p : str) :
  starts_with_sep Posix p = true ->
  path_components Posix (os_path_abspath Posix cwd p) = path_stack Posix p.
Proof.
  intros Hr. unfold os_path_abspath, os_path_isabs. rewrite Hr.
  destruct (posix_normpath_rooted _ Hr) as [k ->].
  unfold path_components. apply components_of_normal_form.
  - reflexivity.
  - apply (clean_nonempty_free Posix); [|apply path_stack_clean].
    intros c Hc. now rewrite <- eqb_slash_is_sep_posix.
Qed.

(** Windows: replacing the alternative separator and splitting on the
    separator is splitting on both. *)
Lemma nt_split_replaced (p : str) :
  split_on (Ascii.eqb chr_backslash) (replace_chr chr_slash chr_backslash p)
  = split_on (is_sep Nt) p.
Proof.
  induction p as [|c p IH]; simpl; [reflexivity|]. rewrite IH.
  destruct (Ascii.eqb_spec c chr_slash) as [->|Hs]; [reflexivity|].
  rewrite orb_false_r, (Ascii.eqb_sym c chr_backslash). reflexivity.
Qed.

Lemma fold_norm_step_lstrip (b : bool) (p : ascii -> bool) (c : ascii)
    (s : str) (stack : list str) :
  p c = true ->
  fold_left (norm_step b) (split_on p (lstrip c s)) stack
  = fold_left (norm_step b) (split_on p s) stack.
Proof.
  intros Hc. unfold lstrip. induction s as [|x s IH]; simpl; [reflexivity|].
  destruct (Ascii.eqb_spec c x) as [<-|Hx]; [|reflexivity].
  rewrite Hc. simpl. exact IH.
Qed.

Lemma nt_normpath_rooted (p : str) :
  starts_with_sep Nt p = true ->
  os_path_normpath Nt p
  = chr_backslash :: join_with [chr_backslash] (path_stack Nt p).
Proof.
  intros Hr. unfold os_path_normpath.
  assert (Hroot : startswith (replace_chr chr_slash chr_backslash p)
                             (lit "\") = true).
  { destruct p as [|c p]; [discriminate|]. simpl in *.
    destruct (Ascii.eqb_spec c chr_slash) as [->|Hs]; [reflexivity|].
    rewrite orb_false_r in Hr. apply Ascii.eqb_eq in Hr. now subst c. }
  rewrite Hroot. cbn [negb andb].
  rewrite fold_norm_step_lstrip by apply Ascii.eqb_refl.
  rewrite nt_split_replaced. reflexivity.
Qed.

Lemma nt_normal_form_fixed (stack : list str) :
  Forall (fun n => clean Nt n = true) stack ->
  os_path_normpath Nt (chr_backslash :: join_with [chr_backslash] stack)
  = chr_backslash :: join_with [chr_backslash] stack.
Proof.
  intros Hst. rewrite nt_normpath_rooted by reflexivity. f_equal. f_equal.
  unfold path_stack. simpl split_on. cbn [fold_left]. rewrite norm_step_skip.
  destruct stack as [|x xs]; [reflexivity|].
  rewrite split_on_join.
  - now apply (fold_norm_step_clean Nt).
  - reflexivity.
  - eapply Forall_impl; [|exact Hst]. intros w Hw.
    now destruct (clean_facts _ _ Hw) as (_ & _ & _ & _ & Hf).
Qed.

Lemma nt_absolute_components (cwd p : str) :
  starts_with_sep Nt p = true ->
  path_components Nt (os_path_abspath Nt cwd (os_path_normpath Nt p))
  = path_stack Nt p.
Proof.
  intros Hr. rewrite nt_normpath_rooted by exact Hr.
  unfold os_path_abspath, os_path_isabs. cbn [starts_with_sep is_sep].
  change (Ascii.eqb chr_backslash chr_backslash || _) with true. cbv iota.
  rewrite nt_normal_form_fixed by apply path_stack_clean.
  unfold path_components.
  apply (components_of_normal_form _ chr_backslash 1).
  - reflexivity.
  - apply (clean_nonempty_free Nt); [|apply path_stack_clean].
    intros c Hc. apply Ascii.eqb_eq in Hc. now subst c.
Qed.

(** ** relpath of a directory of the walk *)

Lemma common_len_prefix (h : host) (xs ys : list str) :
  common_len h xs (xs ++ ys) = List.length xs.
Proof.
  induction xs as [|x xs IH]; simpl; [now destruct ys|].
  now rewrite str_eqb_refl, IH.
Qed.

Lemma ends_with_sep_app_name (h : host) (a n : str) :
  clean h n = true -> ends_with_sep h (a ++ n) = false.
Proof.
  intros Hn. pose proof (clean_ends _ _ Hn) as He.
  destruct (clean_facts _ _ Hn) as (Hne & _).
  unfold ends_with_sep in *. rewrite rev_app_distr.
  destruct (rev n) as [|c tl] eqn:Er; [|exact He].
  apply (f_equal (@rev ascii)) in Er. rewrite rev_involutive in Er.
  now subst n.
Qed.

Lemma fold_join_names (h : host) (cs : list str) (a : str) :
  nonempty a = true -> ends_with_sep h a = false ->
  Forall (fun n => clean h n = true) cs ->
  fold_left (os_path_join h) cs a
  = a ++ flat_map (fun w => [os_sep h] ++ w) cs.
Proof.
  revert a. induction cs as [|n cs IH]; intros a Ha He Hall; simpl.
  - now rewrite app_nil_r.
  - inversion Hall; subst. rewrite os_path_join_name by assumption.
    rewrite Ha, He. simpl negb. simpl orb. cbv iota.
    rewrite IH; auto.
    + now rewrite <- app_assoc.
    + destruct a; [discriminate|reflexivity].
    + change (a ++ [os_sep h] ++ n) with (a ++ (os_sep h :: n)).
      replace (a ++ os_sep h :: n) with ((a ++ [os_sep h]) ++ n)
        by now rewrite <- app_assoc.
      now apply ends_with_sep_app_name.
Qed.

Lemma os_path_join_all_names (h : host) (c : str) (cs : list str) :
  Forall (fun n => clean h n = true) (c :: cs) ->
  os_path_join_all h (c :: cs) = join_with [os_sep h] (c :: cs).
Proof.
  intros Hall. inversion Hall; subst. unfold os_path_join_all.
  rewrite fold_join_names; auto using clean_ends.
  - now rewrite join_with_cons.
  - destruct (clean_facts _ _ H1) as (Hne & _).
    destruct c; [contradiction|reflexivity].
Qed.

Lemma relpath_of_walked_directory (h : host) (cwd top : str)
    (chain : list str) :
  starts_with_sep h top = true ->
  Forall (fun n => clean h n = true) chain ->
  chain <> [] ->
  os_path_relpath h cwd (path_at h top chain) top
  = inr (join_with [os_sep h] chain).
Proof.
  intros Htop Hall Hne.
  pose proof (path_at_rooted h top Hall Htop) as Hdir.
  unfold os_path_relpath.
  assert (Hn : nonempty (path_at h top chain) = true).
  { destruct (path_at h top chain); [discriminate|reflexivity]. }
  rewrite Hn. cbn [negb]. cbv zeta.
  assert (Hlists :
    path_components h
      (match h with
       | Posix => os_path_abspath h cwd top
       | Nt => os_path_abspath h cwd (os_path_normpath h top)
       end) = path_stack h top
    /\ path_components h
         (match h with
          | Posix => os_path_abspath h cwd (path_at h top chain)
          | Nt => os_path_abspath h cwd
                    (os_path_normpath h (path_at h top chain))
          end) = path_stack h top ++ chain).
  { rewrite <- (path_stack_path_at h top Hall).
    destruct h; split;
      auto using posix_absolute_components, nt_absolute_components. }
  destruct Hlists as [-> ->].
  rewrite common_len_prefix, Nat.sub_diag. simpl repeat. simpl app.
  rewrite skipn_app, skipn_all, Nat.sub_diag. simpl.
  destruct chain as [|c cs]; [contradiction|].
  now rewrite <- os_path_join_all_names.
Qed.

(** ** Percent-encoding round trip *)

Lemma unquote_quote_chr (c : ascii) (s : str) :
  unquote (quote [c] ++ s) = c :: unquote s.
Proof.
  destruct c as [[] [] [] [] [] [] [] []]; reflexivity.
Qed.

Lemma unquote_quote (s : str) : unquote (quote s) = s.
Proof.
  induction s as [|c s IH]; [reflexivity|].
  assert (E : quote (c :: s) = quote [c] ++ quote s).
  { unfold quote. cbn [flat_map]. now rewrite app_nil_r. }
  now rewrite E, unquote_quote_chr, IH.
Qed.

(** ** The artifact path of a relative path *)

Lemma forallb_join (P : ascii -> bool) (c : ascii) (xs : list str) :
  P c = true ->
  Forall (fun w => forallb P w = true) xs ->
  forallb P (join_with [c] xs) = true.
Proof.
  intros Hc. induction xs as [|x xs IH]; intros H; [reflexivity|].
  inversion H as [|? ? Hx Hxs]; subst.
  destruct xs as [|y xs]; [assumption|].
  change (join_with [c] (x :: y :: xs))
    with (x ++ c :: join_with [c] (y :: xs)).
  rewrite forallb_app, Hx. cbn [forallb andb]. rewrite Hc.
  now apply IH.
Qed.

Lemma existsb_false_of_forallb (f : ascii -> bool) (s : str) :
  forallb (fun c => negb (f c)) s = true -> existsb f s = false.
Proof.
  induction s as [|c s IH]; simpl; [reflexivity|]. intros H.
  apply andb_true_iff in H as [Hc Hs]. apply negb_true_iff in Hc.
  now rewrite Hc, IH.
Qed.

Lemma valid_name_no_colon (n : str) :
  valid_name Nt n = true ->
  forallb (fun c => negb (Ascii.eqb chr_colon c)) n = true.
Proof.
  unfold valid_name. intros H. apply andb_true_iff in H as [_ Hf].
  rewrite forallb_forall in *. intros c Hc. specialize (Hf c Hc).
  apply negb_true_iff in Hf. unfold is_reserved in Hf.
  apply orb_false_iff in Hf as [_ Hf]. now rewrite Ascii.eqb_sym, Hf.
Qed.

Lemma clean_no_backslash (n : str) :
  clean Nt n = true ->
  forallb (fun c => negb (Ascii.eqb chr_backslash c)) n = true.
Proof.
  intros H. destruct (clean_facts _ _ H) as (_ & _ & _ & _ & Hf).
  rewrite forallb_forall in *. intros c Hc. specialize (Hf c Hc).
  apply negb_true_iff in Hf. simpl in Hf.
  apply orb_false_iff in Hf as [Hf _]. now rewrite Ascii.eqb_sym, Hf.
Qed.

(** A joined chain of names starts with a character that is no separator. *)
Lemma join_names_head (h : host) (sep : ascii) (c : str) (cs : list str) :
  clean h c = true ->
  exists x rest,
    join_with [sep] (c :: cs) = x :: rest /\ is_sep h x = false.
Proof.
  intros Hc. pose proof (clean_starts _ _ Hc) as Hs.
  destruct (clean_facts _ _ Hc) as (Hne & _).
  destruct c as [|x c']; [contradiction|].
  rewrite join_with_cons. simpl. exists x. eexists. split; [reflexivity|].
  exact Hs.
Qed.

Lemma relative_path_of_chain (h : host) (cwd : str) (chain : list str) :
  os_path_isabs h cwd = true ->
  Forall (fun n => valid_name h n = true) chain ->
  chain <> [] ->
  relative_path_to_artifact_path h cwd (join_with [os_sep h] chain)
  = inr (join_with (lit "/") chain).
Proof.
  intros Hcwd Hall Hne. destruct h; [reflexivity|].
  destruct chain as [|c cs]; [contradiction|]. clear Hne.
  assert (Hclean : Forall (fun n => clean Nt n = true) (c :: cs)).
  { eapply Forall_impl; [|exact Hall]. intros n. apply clean_of_valid. }
  assert (Hc : clean Nt c = true) by now inversion Hclean.
  destruct (@join_names_head Nt (os_sep Nt) c cs Hc)
    as (x & rest & Erel & Hx).
  unfold relative_path_to_artifact_path.
  (* the relative path is not its own absolute path *)
  assert (Habs : str_eqb (os_path_abspath Nt cwd
                            (join_with [os_sep Nt] (c :: cs)))
                         (join_with [os_sep Nt] (c :: cs)) = false).
  { rewrite Erel. unfold os_path_abspath, os_path_isabs.
    cbn [starts_with_sep]. rewrite Hx.
    assert (Hj : starts_with_sep Nt (os_path_join Nt cwd (x :: rest)) = true).
    { unfold os_path_join. cbn [starts_with_sep]. rewrite Hx.
      destruct (negb (nonempty cwd) || ends_with_sep Nt cwd);
        now apply starts_with_sep_app. }
    rewrite (nt_normpath_rooted _ Hj). cbn [str_eqb].
    simpl in Hx. apply orb_false_iff in Hx as [Hx _].
    now rewrite Ascii.eqb_sym, Hx. }
  rewrite Habs.
  (* pathname2url: no colon, no leading double backslash *)
  unfold pathname2url.
  assert (Hcolon : existsb (Ascii.eqb chr_colon)
                           (join_with [os_sep Nt] (c :: cs)) = false).
  { apply existsb_false_of_forallb, forallb_join; [reflexivity|].
    eapply Forall_impl; [|exact Hall]. intros n. apply valid_name_no_colon. }
  rewrite Hcolon. cbn [negb].
  assert (Hunc : startswith (join_with [os_sep Nt] (c :: cs)) (lit "\\")
                 = false).
  { rewrite Erel. simpl in Hx. apply orb_false_iff in Hx as [Hx _].
    change (startswith (x :: rest) (lit "\\"))
      with (Ascii.eqb x chr_backslash && startswith rest [chr_backslash]).
    now rewrite Hx. }
  rewrite Hunc.
  rewrite split_on_join.
  - now rewrite unquote_quote.
  - reflexivity.
  - eapply Forall_impl; [|exact Hclean]. intros n. apply clean_no_backslash.
Qed.

(** ** The sub-directory and the endpoint computed for a file *)

Lemma artifact_subdir_of_walked (h : host) (cwd top artifact_path : str)
    (chain : list str) :
  starts_with_sep h top = true ->
  os_path_isabs h cwd = true ->
  Forall (fun n => valid_name h n = true) chain ->
  artifact_subdir_of h cwd top artifact_path (path_at h top chain)
  = inr (match chain with
         | [] => artifact_path
         | _ :: _ => posixpath_join artifact_path (join_with (lit "/") chain)
         end).
Proof.
  intros Htop Hcwd Hall. unfold artifact_subdir_of.
  assert (Hclean : Forall (fun n => clean h n = true) chain).
  { eapply Forall_impl; [|exact Hall]. intros n. apply clean_of_valid. }
  destruct chain as [|c cs].
  - unfold path_at. simpl. now rewrite str_eqb_refl.
  - rewrite path_at_differs by (auto; discriminate). cbn [negb].
    rewrite relpath_of_walked_directory by (auto; discriminate).
    rewrite relative_path_of_chain by (auto; discriminate). reflexivity.
Qed.

Lemma str_or_empty_id (x : str) : str_or_empty x = x.
Proof. now destruct x. Qed.

Lemma endswith_chr_snoc (s : str) (x c : ascii) :
  endswith_chr (s ++ [x]) c = Ascii.eqb x c.
Proof. unfold endswith_chr. now rewrite rev_app_distr. Qed.

Lemma ends_with_sep_snoc (h : host) (s : str) (x : ascii) :
  ends_with_sep h (s ++ [x]) = is_sep h x.
Proof. unfold ends_with_sep. now rewrite rev_app_distr. Qed.

Lemma strip_prefix_slash_app (p rest : str) :
  p <> [] ->
  strip_prefix (p ++ rest) (lit "/") = strip_prefix p (lit "/") ++ rest.
Proof.
  destruct p as [|c p]; [contradiction|]. intros _. unfold strip_prefix.
  simpl. now destruct (Ascii.eqb c "/").
Qed.

Lemma strip_prefix_slash_snoc (q : str) (x : ascii) :
  (strip_prefix (q ++ [x]) (lit "/") = [] /\ x = chr_slash)
  \/ exists q', strip_prefix (q ++ [x]) (lit "/") = q' ++ [x].
Proof.
  destruct q as [|y q]; unfold strip_prefix; simpl.
  - destruct (Ascii.eqb_spec x "/") as [->|Hx]; [left; auto|].
    right. now exists [].
  - right. destruct (Ascii.eqb y "/"); simpl; [now exists q|].
    now exists (y :: q).
Qed.

Lemma snoc_view (s : str) : s = [] \/ exists q x, s = q ++ [x].
Proof.
  destruct (rev s) as [|x tl] eqn:E.
  - left. apply (f_equal (@rev ascii)) in E.
    now rewrite rev_involutive in E.
  - right. exists (rev tl), x. now apply rev_snoc_inv.
Qed.

(** [posixpath.join] in front of a relative path. *)
Lemma posixpath_join_relative (a x : str) :
  starts_with_sep Posix x = false ->
  posixpath_join a x
  = if nonempty a && negb (ends_with_sep Posix a)
    then a ++ chr_slash :: x else a ++ x.
Proof.
  intros Hx. unfold posixpath_join, os_path_join. rewrite Hx.
  destruct (nonempty a), (ends_with_sep Posix a); reflexivity.
Qed.

(** Joining a relative path to the artifact path and stripping the opening
    slash: the same as appending it, behind a slash, to the stripped artifact
    path without its closing slash. *)
Lemma endpoint_algebra (D artifact_path c : str) :
  starts_with_sep Posix c = false ->
  D ++ chr_slash :: strip_prefix
    (if nonempty artifact_path then posixpath_join artifact_path c else c) (lit "/")
  = (let e := D ++ chr_slash :: strip_prefix artifact_path (lit "/") in
     if endswith_chr e chr_slash then removelast e else e) ++ chr_slash :: c.
Proof.
  intros Hc. cbv zeta.
  destruct (snoc_view artifact_path) as [-> | (q & x & ->)].
  - cbn [nonempty]. rewrite (strip_prefix_no_slash c).
    2:{ destruct c as [|a c]; [reflexivity|].
        change (startswith (a :: c) (lit "/"))
          with (Ascii.eqb a chr_slash && true).
        simpl in Hc. now rewrite Hc. }
    change (strip_prefix [] (lit "/")) with (@nil ascii).
    change (D ++ [chr_slash]) with (D ++ [chr_slash]).
    rewrite endswith_chr_snoc, Ascii.eqb_refl, removelast_last. reflexivity.
  - assert (Hne : nonempty (q ++ [x]) = true) by now destruct q.
    assert (Hq : q ++ [x] <> []) by now destruct q.
    rewrite Hne, posixpath_join_relative, Hne, ends_with_sep_snoc by exact Hc.
    cbn [andb].
    assert (Hs : strip_prefix
                   (if negb (is_sep Posix x) then (q ++ [x]) ++ chr_slash :: c
                    else (q ++ [x]) ++ c) (lit "/")
                 = strip_prefix (q ++ [x]) (lit "/")
                   ++ (if negb (is_sep Posix x) then chr_slash :: c else c)).
    { destruct (negb (is_sep Posix x)); now apply strip_prefix_slash_app. }
    rewrite Hs. clear Hs.
    destruct (strip_prefix_slash_snoc q x) as [[E ->] | [q' E]]; rewrite E.
    + change (is_sep Posix chr_slash) with true. cbn [negb app].
      rewrite endswith_chr_snoc, Ascii.eqb_refl, removelast_last. reflexivity.
    + replace (D ++ chr_slash :: q' ++ [x]) with ((D ++ chr_slash :: q') ++ [x])
        by (now rewrite <- app_assoc).
      rewrite endswith_chr_snoc. change (is_sep Posix x) with (Ascii.eqb x chr_slash).
      destruct (Ascii.eqb_spec x chr_slash) as [->|Hx]; cbn [negb].
      * rewrite removelast_last. now rewrite <- !app_assoc.
      * now rewrite <- !app_assoc.
Qed.

Lemma get_dbfs_endpoint_eq (artifact_uri artifact_path : str) :
  _get_dbfs_endpoint artifact_uri artifact_path
  = (lit "/dbfs/"
     ++ strip_prefix (rstrip chr_slash artifact_uri) (lit "dbfs:/"))
    ++ chr_slash :: strip_prefix artifact_path (lit "/").
Proof. unfold _get_dbfs_endpoint. now rewrite <- app_assoc. Qed.

(** The endpoint of the path made of the artifact path and a relative path
    is the destination root, a slash and the relative path. *)
Lemma endpoint_under_root (artifact_uri artifact_path c : str) :
  starts_with_sep Posix c = false ->
  _get_dbfs_endpoint artifact_uri
    (if nonempty artifact_path then posixpath_join artifact_path c else c)
  = destination_root artifact_uri artifact_path ++ chr_slash :: c.
Proof.
  intros Hc. unfold destination_root. rewrite !get_dbfs_endpoint_eq.
  now apply endpoint_algebra.
Qed.

Lemma clean_posix_of_valid (h : host) (n : str) :
  valid_name h n = true -> clean Posix n = true.
Proof.
  intros H. apply clean_of_valid in H.
  destruct (clean_facts _ _ H) as (Hne & _ & Hd & Hdd & Hf).
  unfold clean. rewrite Hd, Hdd. destruct n; [contradiction|].
  cbn [nonempty negb andb]. rewrite forallb_forall in *.
  intros c Hc. specialize (Hf c Hc). apply negb_true_iff in Hf.
  apply negb_true_iff. destruct h; [exact Hf|].
  simpl in Hf. now apply orb_false_iff in Hf as [_ Hf].
Qed.

Lemma join_with_snoc (c : ascii) (x : str) (xs : list str) (n : str) :
  join_with [c] ((x :: xs) ++ [n]) = join_with [c] (x :: xs) ++ c :: n.
Proof.
  revert x. induction xs as [|y xs IH]; intros x; [reflexivity|].
  change (join_with [c] ((x :: y :: xs) ++ [n]))
    with (x ++ c :: join_with [c] ((y :: xs) ++ [n])).
  rewrite IH.
  change (join_with [c] (x :: y :: xs))
    with (x ++ c :: join_with [c] (y :: xs)).
  now rewrite <- app_assoc.
Qed.

Lemma join_names_last (h : host) (c : ascii) (x : str) (xs : list str) :
  Forall (fun n => clean h n = true) (x :: xs) ->
  exists q n, join_with [c] (x :: xs) = q ++ n /\ clean h n = true.
Proof.
  revert x. induction xs as [|y xs IH]; intros x Hall.
  - exists [], x. split; [reflexivity|]. now inversion Hall.
  - inversion Hall; subst. destruct (IH y H2) as (q & n & E & Hn).
    exists (x ++ c :: q), n. split; [|exact Hn].
    change (join_with [c] (x :: y :: xs))
      with (x ++ c :: join_with [c] (y :: xs)).
    rewrite E. now rewrite <- app_assoc.
Qed.

(** The endpoint [_copy_artifact] computes for the file [name] of the
    directory reached through [chain] is the destination endpoint. *)
Lemma upload_endpoint_of_file (h : host) (artifact_uri artifact_path : str)
    (dirpath : str) (chain : list str) (name : str) :
  Forall (fun n => valid_name h n = true) chain ->
  valid_name h name = true ->
  http_endpoint_of h (os_path_join h dirpath name) artifact_uri
    (Some (match chain with
           | [] => artifact_path
           | _ :: _ => posixpath_join artifact_path
                                      (join_with (lit "/") chain)
           end))
  = destination_endpoint artifact_uri artifact_path chain name.
Proof.
  intros Hall Hname. unfold http_endpoint_of, destination_endpoint.
  rewrite os_path_basename_join by now apply clean_of_valid.
  pose proof (clean_posix_of_valid _ _ Hname) as Hn.
  assert (Hclean : Forall (fun n => clean Posix n = true) chain).
  { eapply Forall_impl; [|exact Hall]. intros n. apply clean_posix_of_valid. }
  destruct chain as [|c cs].
  - change (join_with (lit "/")
              (destination_root artifact_uri artifact_path :: [] ++ [name]))
      with (destination_root artifact_uri artifact_path
            ++ chr_slash :: name).
    rewrite <- endpoint_under_root by now apply clean_starts.
    now destruct (nonempty artifact_path).
  - assert (Hc : clean Posix c = true) by now inversion Hclean.
    change (lit "/") with [chr_slash].
    destruct (@join_names_head Posix chr_slash c cs Hc)
      as (x & rest & EJ & Hx).
    destruct (@join_names_last Posix chr_slash c cs Hclean)
      as (q & n & EJ2 & Hq).
    set (J := join_with [chr_slash] (c :: cs)) in *.
    assert (HJs : starts_with_sep Posix J = false) by now rewrite EJ.
    assert (HJe : forall a, ends_with_sep Posix (a ++ J) = false).
    { intros a. rewrite EJ2, app_assoc. now apply ends_with_sep_app_name. }
    assert (HJn : forall a, nonempty (a ++ J) = true).
    { intros a. rewrite EJ. now destruct a. }
    assert (HJs2 : starts_with_sep Posix (J ++ chr_slash :: name) = false)
      by now rewrite EJ.
    assert (Hsub : exists a, posixpath_join artifact_path J = a ++ J
                             /\ (nonempty artifact_path = false -> a = [])
                             /\ (nonempty artifact_path = true ->
                                 posixpath_join artifact_path
                                   (J ++ chr_slash :: name)
                                 = (a ++ J) ++ chr_slash :: name)).
    { rewrite !posixpath_join_relative by assumption.
      destruct (nonempty artifact_path && negb (ends_with_sep Posix
                                                 artifact_path)) eqn:Hcond.
      - exists (artifact_path ++ [chr_slash]). rewrite <- !app_assoc.
        repeat split; auto. intros Hp. now rewrite Hp in Hcond.
      - exists artifact_path. rewrite <- !app_assoc. repeat split; auto.
        intros Hp. now destruct artifact_path. }
    destruct Hsub as (a & Ea & Hempty & Hfull). rewrite Ea, HJn.
    unfold posixpath_join at 1. rewrite os_path_join_name by exact Hn.
    rewrite HJn, HJe. cbn [negb orb].
    change (join_with [chr_slash]
              (destination_root artifact_uri artifact_path
               :: (c :: cs) ++ [name]))
      with (destination_root artifact_uri artifact_path
            ++ chr_slash :: join_with [chr_slash] ((c :: cs) ++ [name])).
    rewrite join_with_snoc. fold J.
    rewrite <- endpoint_under_root by exact HJs2.
    destruct (nonempty artifact_path) eqn:Hp.
    + now rewrite Hfull.
    + now rewrite (Hempty eq_refl).
Qed.

(** ** Walking a tree the file system holds *)

Lemma tree_ind_nested (P : tree -> Prop) :
  (forall files subdirs,
      Forall (fun d => P (snd d)) subdirs -> P (Tree files subdirs)) ->
  forall t, P t.
Proof.
  intros H. fix F 1. intros [files subdirs]. apply H.
  induction subdirs as [|[n t'] subdirs IH]; constructor.
  - apply F.
  - exact IH.
Qed.

Lemma map_flat_map_comm {A B C : Type} (f : B -> C) (g : A -> list B)
    (l : list A) :
  map f (flat_map g l) = flat_map (fun x => map f (g x)) l.
Proof.
  induction l as [|x l IH]; simpl; [reflexivity|].
  now rewrite map_app, IH.
Qed.

Lemma flat_map_flat_map {A B C : Type} (f : B -> list C) (g : A -> list B)
    (l : list A) :
  flat_map f (flat_map g l) = flat_map (fun x => flat_map f (g x)) l.
Proof.
  induction l as [|x l IH]; simpl; [reflexivity|].
  now rewrite flat_map_app, IH.
Qed.

Lemma flat_map_ext_Forall {A B : Type} (f g : A -> list B) (l : list A) :
  Forall (fun x => f x = g x) l -> flat_map f l = flat_map g l.
Proof.
  induction 1 as [|x l Hx _ IH]; simpl; [reflexivity|].
  now rewrite Hx, IH.
Qed.

Lemma tree_depth_subdir (files : list (str * list ascii))
    (subdirs : list (str * tree)) (d : str * tree) :
  In d subdirs -> tree_depth (snd d) < tree_depth (Tree files subdirs).
Proof.
  intros Hin. simpl. apply Nat.lt_succ_r.
  assert (H : Forall (fun k => k <= list_max (map (fun d => tree_depth (snd d))
                                                  subdirs))
                     (map (fun d => tree_depth (snd d)) subdirs)).
  { now apply list_max_le. }
  rewrite Forall_forall in H. apply H.
  exact (in_map (fun d => tree_depth (snd d)) subdirs d Hin).
Qed.

Section Walk.

Variable h : host.
Variable fs : filesystem.
Variable top : str.

(** The loop over the sub-directories, given what the recursive calls do. *)
Lemma walk_subdirs_realised (fuel : nat) (chain : list str) :
  (forall chain' t,
      realises h fs (path_at h top chain') t ->
      match os_walk fuel h fs (path_at h top chain') with
      | Some es => es = map (entry_of h top) (walk_chains chain' t)
      | None => fuel < tree_depth t
      end) ->
  forall subdirs,
    Forall (fun d =>
              valid_name h (fst d) = true
              /\ fs_islink fs (os_path_join h (path_at h top chain) (fst d))
                 = false
              /\ realises h fs (os_path_join h (path_at h top chain) (fst d))
                          (snd d))
           subdirs ->
    match walk_subdirs h fs (os_walk fuel h fs) (path_at h top chain)
                       (map fst subdirs) with
    | Some es =>
        es = flat_map (fun d => map (entry_of h top)
                                    (walk_chains (chain ++ [fst d]) (snd d)))
                      subdirs
    | None => exists d, In d subdirs /\ fuel < tree_depth (snd d)
    end.
Proof.
  intros IHfuel subdirs Hall.
  induction Hall as [|d subdirs (Hv & Hl & Hr) _ IH]; simpl; [reflexivity|].
  rewrite Hl. rewrite <- path_at_snoc in *.
  specialize (IHfuel (chain ++ [fst d]) (snd d) Hr).
  destruct (os_walk fuel h fs (path_at h top (chain ++ [fst d])))
    as [here|].
  - destruct (walk_subdirs h fs (os_walk fuel h fs) (path_at h top chain)
                           (map fst subdirs)) as [others|].
    + now rewrite IHfuel, IH.
    + destruct IH as (d' & Hin & Hd'). exists d'. split; [now right|exact Hd'].
  - exists d. split; [now left|exact IHfuel].
Qed.

(** When [os.walk] is given the fuel for it, it produces the directories of
    the tree, top-down; it never produces anything else. *)
Lemma os_walk_realised (fuel : nat) :
  forall chain t,
    realises h fs (path_at h top chain) t ->
    match os_walk fuel h fs (path_at h top chain) with
    | Some es => es = map (entry_of h top) (walk_chains chain t)
    | None => fuel < tree_depth t
    end.
Proof.
  induction fuel as [|fuel IH]; intros chain t Hr.
  - simpl. destruct t. simpl. lia.
  - inversion Hr as [top' files subdirs Hscan Hfiles Hsub Etop Et]; subst.
    simpl os_walk. rewrite Hscan.
    pose proof (@walk_subdirs_realised fuel chain IH subdirs Hsub) as Hw.
    destruct (walk_subdirs h fs (os_walk fuel h fs) (path_at h top chain)
                           (map fst subdirs)) as [below|].
    + subst below. simpl walk_chains. simpl map.
      now rewrite map_flat_map_comm.
    + destruct Hw as (d & Hin & Hd).
      pose proof (tree_depth_subdir files subdirs d Hin). lia.
Qed.

Lemma os_walk_enough_fuel (fuel : nat) (chain : list str) (t : tree) :
  realises h fs (path_at h top chain) t ->
  tree_depth t <= fuel ->
  os_walk fuel h fs (path_at h top chain)
  = Some (map (entry_of h top) (walk_chains chain t)).
Proof.
  intros Hr Hd. pose proof (@os_walk_realised fuel chain t Hr) as H.
  destruct (os_walk fuel h fs (path_at h top chain)); [now subst|lia].
Qed.

(** Every directory of the walk is held by the file system at its path, and
    is reached through valid names. *)
Lemma walk_chains_realised (t : tree) :
  forall chain,
    Forall (fun n => valid_name h n = true) chain ->
    realises h fs (path_at h top chain) t ->
    Forall (fun ct =>
              Forall (fun n => valid_name h n = true) (fst ct)
              /\ realises h fs (path_at h top (fst ct)) (snd ct))
           (walk_chains chain t).
Proof.
  induction t as [files subdirs IH] using tree_ind_nested.
  intros chain Hchain Hr. simpl. constructor; [now split|].
  inversion Hr as [top' files' subdirs' Hscan Hfiles Hsub Etop Et]; subst.
  clear Hr Hscan Hfiles.
  induction subdirs as [|d subdirs IHl]; simpl; [constructor|].
  inversion IH as [|? ? Hd IH']; subst.
  inversion Hsub as [|? ? (Hv & _ & Hrd) Hsub']; subst.
  apply Forall_app. split.
  - apply Hd.
    + apply Forall_app. split; [exact Hchain|]. now constructor.
    + now rewrite path_at_snoc.
  - now apply IHl.
Qed.

End Walk.

(** The files of a tree are those of its directories, in the order of the
    walk. *)
Lemma files_of_walk_chains (t : tree) :
  forall chain,
    files_of chain t = flat_map own_files (walk_chains chain t).
Proof.
  induction t as [files subdirs IH] using tree_ind_nested.
  intros chain. simpl. rewrite flat_map_flat_map.
  unfold own_files at 1. cbn [fst snd tree_files].
  apply (f_equal (app _)). apply flat_map_ext_Forall. eapply Forall_impl; [|exact IH].
  intros d Hd. apply Hd.
Qed.

(** ** The uploads of a whole tree *)

Lemma for_each_map {Remote A B : Type} (g : A -> B) (xs : list A)
    (body : B -> M Remote unit) (r : Remote) :
  for_each (map g xs) body r = for_each xs (fun x => body (g x)) r.
Proof.
  revert r. induction xs as [|x xs IH]; intros r; simpl; [reflexivity|].
  unfold bind. destruct (body (g x) r) as [[[[] | e |] r1] t1]; auto.
  now rewrite IH.
Qed.

(** When every item of a loop that returns has sent the requests [reqs]
    tells, the loop that returns has sent them all, in order. *)
Lemma for_each_requests {Remote A : Type} (reqs : A -> list request)
    (xs : list A) (body : A -> M Remote unit) :
  (forall x r r1 t1,
      In x xs -> body x r = (Returned tt, r1, t1) ->
      requests_of t1 = reqs x) ->
  forall r r1 t1,
    for_each xs body r = (Returned tt, r1, t1) ->
    requests_of t1 = flat_map reqs xs.
Proof.
  induction xs as [|x xs IH]; intros Hb r r1 t1 E; simpl in *.
  - unfold ret in E. now injection E as _ <-.
  - unfold bind in E.
    destruct (body x r) as [[[[] | e |] ra] ta] eqn:Ea; try discriminate.
    destruct (for_each xs body ra) as [[ob rb] tb] eqn:Eb.
    injection E as -> -> <-. rewrite requests_of_app.
    rewrite (Hb x r ra ta (or_introl eq_refl) Ea).
    now rewrite (IH (fun y r r1 t1 Hy => Hb y r r1 t1 (or_intror Hy))
                    ra r1 tb Eb).
Qed.

(** A loop whose items do nothing does nothing. *)
Lemma for_each_silent {Remote A : Type} (xs : list A)
    (body : A -> M Remote unit) :
  (forall x r, In x xs -> body x r = (Returned tt, r, [])) ->
  forall r, for_each xs body r = (Returned tt, r, []).
Proof.
  induction xs as [|x xs IH]; intros Hb r; simpl; [reflexivity|].
  unfold bind. rewrite (Hb x r (or_introl eq_refl)).
  now rewrite (IH (fun y r Hy => Hb y r (or_intror Hy))).
Qed.

Lemma flat_map_singleton {A B : Type} (f : A -> B) (l : list A) :
  flat_map (fun x => [f x]) l = map f l.
Proof. induction l as [|x l IH]; simpl; [reflexivity|]. now rewrite IH. Qed.

Lemma flat_map_nil_inv {A B : Type} (f : A -> list B) (l : list A) :
  flat_map f l = [] -> Forall (fun x => f x = []) l.
Proof.
  induction l as [|x l IH]; simpl; intros H; constructor;
    apply app_eq_nil in H as [H1 H2]; auto.
Qed.

Lemma local_dir_rooted (h : host) (artifact_uri artifact_path : str) :
  starts_with_sep h (local_dir_of artifact_uri artifact_path) = true.
Proof. apply is_sep_slash. Qed.

Section TreeUpload.

Variable h : host.
Variable fs : filesystem.
Variable Remote : Type.
Variable http_request_safe : request -> Remote -> reply * Remote.
Variable get_databricks_host_creds : str -> host_creds.

Let creds := get_databricks_host_creds (lit "registry").
Let upload := _copy_artifact h fs http_request_safe get_databricks_host_creds.
Let run := copy_artifacts h fs http_request_safe get_databricks_host_creds.

(** The one request of the upload of a file the file system holds. *)
Lemma upload_of_held_file (local_file artifact_uri : str)
    (artifact_path : option str) (content : list ascii) (r : Remote) :
  fs_stat_size fs local_file = Some (List.length content) ->
  fs_open_rb fs local_file = Some content ->
  requests_of (trace_of (upload local_file artifact_uri artifact_path r))
  = [upload_request h creds local_file artifact_uri artifact_path
                    (expected_data local_file content)].
Proof.
  intros Hsize Hopen. unfold upload. rewrite copy_artifact_unfold. cbv zeta.
  rewrite Hsize. destruct content as [|c content]; simpl List.length.
  - destruct (http_request_safe _ r) as [rp r']. unfold trace_of. simpl.
    now rewrite after_reply_no_requests.
  - rewrite Hopen. destruct (http_request_safe _ r) as [rp r'].
    unfold trace_of. simpl. now rewrite after_reply_no_requests.
Qed.

(** The body of the outer loop of [copy_artifacts]. *)
Let per_directory (artifact_uri artifact_path : str) (entry : walk_entry)
  : M Remote unit :=
  bind (lift (artifact_subdir_of h (fs_getcwd fs)
                (local_dir_of artifact_uri artifact_path)
                (str_or_empty artifact_path) (fst (fst entry))))
       (fun artifact_subdir =>
          for_each (snd entry)
            (fun name =>
               upload (os_path_join h (fst (fst entry)) name)
                      artifact_uri (Some artifact_subdir))).

Lemma per_directory_requests (artifact_uri artifact_path : str)
    (ct : list str * tree) (r r1 : Remote) (t1 : list event) :
  os_path_isabs h (fs_getcwd fs) = true ->
  Forall (fun n => valid_name h n = true) (fst ct) ->
  realises h fs (path_at h (local_dir_of artifact_uri artifact_path) (fst ct))
           (snd ct) ->
  per_directory artifact_uri artifact_path
    (entry_of h (local_dir_of artifact_uri artifact_path) ct) r
  = (Returned tt, r1, t1) ->
  requests_of t1
  = map (expected_request h creds artifact_uri artifact_path) (own_files ct).
Proof.
  intros Hcwd Hchain Hr. destruct ct as [chain t]. cbn [fst snd] in *.
  unfold per_directory, entry_of. cbn [fst snd].
  rewrite artifact_subdir_of_walked, str_or_empty_id, bind_lift
    by auto using local_dir_rooted.
  rewrite for_each_map. intros E.
  inversion Hr as [top' files subdirs Hscan Hfiles Hsub Etop Et]; subst.
  cbn [tree_files] in *. unfold own_files. cbn [fst snd tree_files].
  rewrite map_map, <- flat_map_singleton.
  eapply for_each_requests; [|exact E].
  intros f ra rb tb Hin Eb. cbn [fst snd].
  rewrite Forall_forall in Hfiles.
  destruct (Hfiles f Hin) as (Hv & Hsize & Hopen).
  pose proof (@upload_of_held_file _ artifact_uri
                (Some (match chain with
                       | [] => artifact_path
                       | _ :: _ => posixpath_join artifact_path
                                     (join_with (lit "/") chain)
                       end)) _ ra Hsize Hopen) as Hrq.
  rewrite Eb in Hrq. unfold trace_of in Hrq. simpl in Hrq. rewrite Hrq.
  unfold upload_request, expected_request.
  now rewrite upload_endpoint_of_file.
Qed.

(** C1, as the code has it: when the file system holds the tree [t] at the
    resolved local directory, every directory of [t] listable and no
    sub-directory a symbolic link, a [copy_artifacts] call that returns has
    sent one upload per file of [t] and no other: each to the endpoint made
    of the destination root, the chain of sub-directories of the file and
    its name, joined by forward slashes on a POSIX and on a Windows host
    alike. *)
Theorem copy_artifacts_uploads_the_tree
    (fuel : nat) (artifact_uri artifact_path : str) (t : tree)
    (r r1 : Remote) (t1 : list event) :
  os_path_isabs h (fs_getcwd fs) = true ->
  realises h fs (local_dir_of artifact_uri artifact_path) t ->
  run fuel artifact_uri artifact_path r = (Returned tt, r1, t1) ->
  requests_of t1
  = map (expected_request h creds artifact_uri artifact_path) (files_of [] t).
Proof.
  intros Hcwd Hr E. unfold run in E. rewrite copy_artifacts_unfold in E.
  set (top := local_dir_of artifact_uri artifact_path) in *.
  change top with (path_at h top []) in Hr.
  pose proof (@os_walk_realised h fs top fuel [] t Hr) as Hw.
  change (path_at h top []) with top in Hw.
  destruct (os_walk fuel h fs top) as [entries|]; [|discriminate].
  subst entries. rewrite for_each_map in E.
  rewrite files_of_walk_chains, map_flat_map_comm.
  eapply for_each_requests; [|exact E].
  intros ct ra rb tb Hin Eb.
  pose proof (@walk_chains_realised h fs top t [] (Forall_nil _) Hr) as Hall.
  rewrite Forall_forall in Hall. destruct (Hall ct Hin) as [Hchain Hct].
  exact (@per_directory_requests artifact_uri artifact_path ct ra rb tb
           Hcwd Hchain Hct Eb).
Qed.

(** C9: when the resolved local directory does not exist, or exists and the
    tree under it holds no file, [copy_artifacts] returns normally and has
    done nothing: no upload was attempted. *)
Theorem copy_artifacts_of_nothing
    (fuel : nat) (artifact_uri artifact_path : str) (r : Remote) :
  fs_scandir fs (local_dir_of artifact_uri artifact_path) = None
  \/ (exists t,
         realises h fs (local_dir_of artifact_uri artifact_path) t
         /\ os_path_isabs h (fs_getcwd fs) = true
         /\ files_of [] t = []
         /\ tree_depth t <= S fuel) ->
  run (S fuel) artifact_uri artifact_path r = (Returned tt, r, []).
Proof.
  unfold run. rewrite copy_artifacts_unfold.
  set (top := local_dir_of artifact_uri artifact_path) in *.
  intros [Hmiss | (t & Hr & Hcwd & Hnone & Hdepth)].
  - now rewrite (os_walk_unlistable h fs fuel _ Hmiss).
  - change top with (path_at h top []) in Hr.
    pose proof (@os_walk_enough_fuel h fs top (S fuel) [] t Hr Hdepth) as Hw.
    change (path_at h top []) with top in Hw. rewrite Hw.
    rewrite for_each_map. apply for_each_silent. intros ct ra Hin.
    pose proof (@walk_chains_realised h fs top t [] (Forall_nil _) Hr) as Hall.
    rewrite Forall_forall in Hall. destruct (Hall ct Hin) as [Hchain Hct].
    rewrite files_of_walk_chains in Hnone. apply flat_map_nil_inv in Hnone.
    rewrite Forall_forall in Hnone. specialize (Hnone ct Hin).
    unfold own_files in Hnone. apply map_eq_nil in Hnone.
    unfold entry_of. cbn [fst snd]. rewrite Hnone.
    rewrite artifact_subdir_of_walked;
      [| apply local_dir_rooted | exact Hcwd | exact Hchain].
    rewrite bind_lift. reflexivity.
Qed.

End TreeUpload.

(** ** The sample tree *)

Lemma sample_fs_holds_sample_tree :
  realises Posix sample_fs (local_dir_of sample_uri sample_path) sample_tree.
Proof.
  apply realises_dir; [reflexivity | |].
  - repeat constructor.
  - constructor; [|constructor]. split; [reflexivity|]. split; [reflexivity|].
    apply realises_dir; [reflexivity | | constructor].
    repeat constructor.
Qed.

Lemma sample_fs_nt_holds_sample_tree :
  realises Nt sample_fs_nt (local_dir_of sample_uri sample_path) sample_tree.
Proof.
  apply realises_dir; [reflexivity | |].
  - repeat constructor.
  - constructor; [|constructor]. split; [reflexivity|]. split; [reflexivity|].
    apply realises_dir; [reflexivity | | constructor].
    repeat constructor.
Qed.

Lemma bare_fs_holds_bare_tree :
  realises Posix bare_fs (local_dir_of sample_uri sample_path) bare_tree.
Proof.
  apply realises_dir; [reflexivity | constructor |].
  constructor; [|constructor]. split; [reflexivity|]. split; [reflexivity|].
  apply realises_dir; [reflexivity | constructor | constructor].
Qed.

(** The example of the specification: the two files of the sample tree go to
    [/dbfs/registry/run123/model/MLmodel] and
    [/dbfs/registry/run123/model/data/model.h5]. *)
Lemma copy_artifacts_uploads_the_tree_witness :
  let res := copy_artifacts Posix sample_fs dbfs_http_request_safe
                            registry_creds 2 sample_uri sample_path [] in
  outcome_of res = Returned tt
  /\ requests_of (trace_of res)
     = map (expected_request Posix (registry_creds (lit "registry"))
                             sample_uri sample_path)
           (files_of [] sample_tree)
  /\ map rq_endpoint (requests_of (trace_of res))
     = [lit "/dbfs/registry/run123/model/MLmodel";
        lit "/dbfs/registry/run123/model/data/model.h5"].
Proof.
  cbv zeta. split; [vm_compute; reflexivity|].
  assert (E : requests_of
                (trace_of (copy_artifacts Posix sample_fs
                             dbfs_http_request_safe registry_creds 2
                             sample_uri sample_path []))
              = map (expected_request Posix (registry_creds (lit "registry"))
                                      sample_uri sample_path)
                    (files_of [] sample_tree)).
  { apply (@copy_artifacts_uploads_the_tree
             Posix sample_fs dbfs_store dbfs_http_request_safe registry_creds
             2 sample_uri sample_path sample_tree []
             [lit "/dbfs/registry/run123/model/data/model.h5";
              lit "/dbfs/registry/run123/model/MLmodel"]).
    - reflexivity.
    - exact sample_fs_holds_sample_tree.
    - vm_compute. reflexivity. }
  split; [exact E|]. rewrite E. vm_compute. reflexivity.
Defined.

(** A tree the file system holds is on disk; the converse fails, as the
    next lemma shows. *)
Lemma realises_on_disk (h : host) (fs : filesystem) (t : tree) :
  forall top, realises h fs top t -> on_disk h fs top t.
Proof.
  induction t as [files subdirs IH] using tree_ind_nested.
  intros top Hr.
  inversion Hr as [top' files' subdirs' Hscan Hfiles Hsub Etop Et]; subst.
  apply on_disk_dir; [exact Hfiles|]. clear Hr Hscan Hfiles.
  induction subdirs as [|d subdirs IHl]; [constructor|].
  inversion IH as [|? ? Hd IH']; subst.
  inversion Hsub as [|? ? (Hv & _ & Hrd) Hsub']; subst.
  constructor; [|now apply IHl]. split; [exact Hv|]. now apply Hd.
Qed.

(** C1, as stated, fails on a tree with a directory that cannot be listed:
    the sample tree is on disk, [os.walk] passes over [data] in silence, and
    the call returns normally having uploaded [MLmodel] alone, not the two
    files of the tree. *)
Lemma unlistable_directory_loses_its_files :
  let top := local_dir_of sample_uri sample_path in
  let res := copy_artifacts Posix guarded_fs dbfs_http_request_safe
                            registry_creds 2 sample_uri sample_path [] in
  on_disk Posix guarded_fs top sample_tree
  /\ fs_scandir guarded_fs top = Some ([lit "data"], [lit "MLmodel"])
  /\ fs_scandir guarded_fs (os_path_join Posix top (lit "data")) = None
  /\ outcome_of res = Returned tt
  /\ map rq_endpoint (requests_of (trace_of res))
     = [lit "/dbfs/registry/run123/model/MLmodel"]
  /\ requests_of (trace_of res)
     <> map (expected_request Posix (registry_creds (lit "registry"))
                              sample_uri sample_path)
            (files_of [] sample_tree)
  /\ ~ realises Posix guarded_fs top sample_tree.
Proof.
  cbv zeta. split.
  { apply on_disk_dir.
    - repeat constructor.
    - constructor; [|constructor]. split; [reflexivity|].
      apply on_disk_dir; [repeat constructor | constructor]. }
  split; [reflexivity|]. split; [reflexivity|].
  split; [vm_compute; reflexivity|]. split; [vm_compute; reflexivity|].
  split.
  - intros E. apply (f_equal (@List.length request)) in E.
    vm_compute in E. discriminate E.
  - intros Hr.
    inversion Hr as [top' files subdirs Hscan Hfiles Hsub Etop Et]; subst.
    inversion Hsub as [|d ds (_ & _ & Hd) _]; subst.
    inversion Hd as [top' files subdirs Hscan' _ _ Etop Et]; subst.
    vm_compute in Hscan'. discriminate Hscan'.
Qed.

(** On a Windows host the local paths carry backslashes, the endpoints do
    not. *)
Lemma copy_artifacts_on_windows :
  let res := copy_artifacts Nt sample_fs_nt dbfs_http_request_safe
                            registry_creds 2 sample_uri sample_path [] in
  outcome_of res = Returned tt
  /\ opened_in (trace_of res) = [lit "/dbfs/registry/run123/model\MLmodel"]
  /\ map rq_endpoint (requests_of (trace_of res))
     = [lit "/dbfs/registry/run123/model/MLmodel";
        lit "/dbfs/registry/run123/model/data/model.h5"].
Proof. cbv zeta. repeat split; vm_compute; reflexivity. Qed.

Lemma copy_artifacts_of_nothing_witness :
  copy_artifacts Posix bare_fs dbfs_http_request_safe registry_creds
                 2 sample_uri sample_path []
  = (Returned tt, [], []).
Proof.
  apply (@copy_artifacts_of_nothing
           Posix bare_fs dbfs_store dbfs_http_request_safe registry_creds
           1 sample_uri sample_path []).
  right. exists bare_tree. split; [exact bare_fs_holds_bare_tree|].
  split; [reflexivity|]. split; [reflexivity|]. vm_compute. lia.
Defined.

(* ================================================================== *)
(** * Further properties of the notebook *)

(** ** Files opened and closed *)

Lemma opened_in_app (t1 t2 : list event) :
  opened_in (t1 ++ t2) = opened_in t1 ++ opened_in t2.
Proof.
  induction t1 as [|[] t1 IH]; simpl; auto. now rewrite IH.
Qed.

Lemma closed_in_app (t1 t2 : list event) :
  closed_in (t1 ++ t2) = closed_in t1 ++ closed_in t2.
Proof.
  induction t1 as [|[] t1 IH]; simpl; auto. now rewrite IH.
Qed.

Lemma after_reply_no_files (rp : reply) :
  opened_in (snd (after_reply rp)) = []
  /\ closed_in (snd (after_reply rp)) = [].
Proof.
  destruct rp as [|[]]; simpl; auto. now destruct (str_contains _ message).
Qed.

Lemma bind_opened_closed {Remote A B : Type} (m : M Remote A)
    (f : A -> M Remote B) (r : Remote) :
  opened_in (trace_of (m r)) = closed_in (trace_of (m r)) ->
  (forall a r1, opened_in (trace_of (f a r1)) = closed_in (trace_of (f a r1))) ->
  opened_in (trace_of (bind m f r)) = closed_in (trace_of (bind m f r)).
Proof.
  intros Hm Hf. unfold bind.
  destruct (m r) as [[[a | e |] r1] t1]; auto.
  specialize (Hf a r1). destruct (f a r1) as [[o r2] t2].
  unfold trace_of in *. simpl in *.
  now rewrite opened_in_app, closed_in_app, Hm, Hf.
Qed.

Lemma for_each_opened_closed {Remote A : Type} (xs : list A)
    (body : A -> M Remote unit) :
  (forall x r, opened_in (trace_of (body x r))
               = closed_in (trace_of (body x r))) ->
  forall r, opened_in (trace_of (for_each xs body r))
            = closed_in (trace_of (for_each xs body r)).
Proof.
  intros Hb. induction xs as [|x xs IH]; intros r; simpl; [reflexivity|].
  apply bind_opened_closed; auto.
Qed.

Section MoreOfOneUpload.

Variable h : host.
Variable fs : filesystem.
Variable Remote : Type.
Variable http_request_safe : request -> Remote -> reply * Remote.
Variable get_databricks_host_creds : str -> host_creds.

Let creds := get_databricks_host_creds (lit "registry").
Let upload := _copy_artifact h fs http_request_safe get_databricks_host_creds.
Let run := copy_artifacts h fs http_request_safe get_databricks_host_creds.

Lemma upload_opened_closed (local_file artifact_uri : str)
    (artifact_path : option str) (r : Remote) :
  opened_in (trace_of (upload local_file artifact_uri artifact_path r))
  = closed_in (trace_of (upload local_file artifact_uri artifact_path r)).
Proof.
  unfold upload. rewrite copy_artifact_unfold. cbv zeta.
  destruct (fs_stat_size fs local_file) as [[|n]|];
    [| destruct (fs_open_rb fs local_file) as [content|] |];
    try reflexivity.
  - destruct (http_request_safe _ r) as [rp r']. unfold trace_of. simpl.
    now destruct (after_reply_no_files rp) as [-> ->].
  - destruct (http_request_safe _ r) as [rp r']. unfold trace_of. simpl.
    now destruct (after_reply_no_files rp) as [-> ->].
Qed.

(** X1: whatever the registry answers and however the run ends, every file
    [copy_artifacts] opened has been closed when it is over, in the order of
    opening: the with-statement closes the file also when the request
    raises. *)
Theorem every_opened_file_is_closed
    (fuel : nat) (artifact_uri artifact_path : str) (r : Remote) :
  opened_in (trace_of (run fuel artifact_uri artifact_path r))
  = closed_in (trace_of (run fuel artifact_uri artifact_path r)).
Proof.
  unfold run, copy_artifacts. cbv zeta.
  destruct (os_walk fuel h fs _) as [entries|]; [|reflexivity].
  apply for_each_opened_closed. intros [[dirpath dirs] filenames] r1.
  apply bind_opened_closed.
  - destruct (negb _); [|reflexivity].
    destruct (os_path_relpath _ _ _ _) as [e|rel]; [reflexivity|].
    unfold bind; simpl.
    destruct (relative_path_to_artifact_path _ _ _); reflexivity.
  - intros subdir r2. apply for_each_opened_closed.
    intros name r3. apply upload_opened_closed.
Qed.

(** X2: one call of [_copy_artifact] never retries: it sends at most one
    request, a POST with the credentials of the profile [registry]; and it
    sends exactly one as soon as the size of the file can be read and, for a
    file that is not empty, the file can be opened. *)
Theorem upload_sends_at_most_one_request
    (local_file artifact_uri : str) (artifact_path : option str) (r : Remote) :
  let sent := requests_of (trace_of (upload local_file artifact_uri
                                            artifact_path r)) in
  List.length sent <= 1
  /\ Forall (fun rq => rq_method rq = lit "POST"
                       /\ rq_host_creds rq = creds) sent
  /\ (forall size content,
         fs_stat_size fs local_file = Some size ->
         (size <> 0 -> fs_open_rb fs local_file = Some content) ->
         List.length sent = 1).
Proof.
  cbv zeta. unfold upload. rewrite copy_artifact_unfold. cbv zeta.
  destruct (fs_stat_size fs local_file) as [[|n]|].
  - destruct (http_request_safe _ r) as [rp r']. unfold trace_of. simpl.
    rewrite after_reply_no_requests. simpl. repeat split; auto.
  - destruct (fs_open_rb fs local_file) as [content|].
    + destruct (http_request_safe _ r) as [rp r']. unfold trace_of. simpl.
      rewrite after_reply_no_requests. simpl. repeat split; auto.
    + unfold trace_of. simpl. repeat split; auto.
      intros size content Hsize Hopen. injection Hsize as <-.
      discriminate (Hopen (Nat.neq_succ_0 n)).
  - unfold trace_of. simpl. repeat split; auto. discriminate.
Qed.

(** X3: an error of the file system is not an MlflowException and is not
    caught: when the size of the file cannot be read, or the file has a size
    but cannot be opened, [_copy_artifact] raises that OSError after the one
    line it prints, without sending a request and without touching the
    registry. *)
Theorem unreadable_file_raises_OSError
    (local_file artifact_uri : str) (artifact_path : option str) (r : Remote) :
  fs_stat_size fs local_file = None
  \/ (exists n, fs_stat_size fs local_file = Some (S n)
                /\ fs_open_rb fs local_file = None) ->
  upload local_file artifact_uri artifact_path r
  = (Raised (OSError local_file), r,
     [copying_line h local_file artifact_uri artifact_path]).
Proof.
  intros H. unfold upload. rewrite copy_artifact_unfold. cbv zeta.
  destruct H as [-> | (n & -> & ->)]; reflexivity.
Qed.

End MoreOfOneUpload.

Lemma upload_sends_at_most_one_request_witness :
  List.length
    (requests_of
       (trace_of (_copy_artifact Posix sample_fs dbfs_http_request_safe
                    registry_creds
                    (lit "/dbfs/registry/run123/model/MLmodel")
                    sample_uri (Some (lit "model")) []))) = 1.
Proof.
  destruct (@upload_sends_at_most_one_request
              Posix sample_fs dbfs_store dbfs_http_request_safe registry_creds
              (lit "/dbfs/registry/run123/model/MLmodel")
              sample_uri (Some (lit "model")) []) as (_ & _ & H).
  apply (H 8 (lit "flavors:")); reflexivity.
Defined.

Lemma unreadable_file_raises_OSError_witness :
  _copy_artifact Posix sample_fs dbfs_http_request_safe registry_creds
    (lit "/dbfs/registry/run123/model/gone") sample_uri (Some (lit "model")) []
  = (Raised (OSError (lit "/dbfs/registry/run123/model/gone")), [],
     [copying_line Posix (lit "/dbfs/registry/run123/model/gone") sample_uri
                   (Some (lit "model"))]).
Proof.
  apply (@unreadable_file_raises_OSError
           Posix sample_fs dbfs_store dbfs_http_request_safe registry_creds).
  left. reflexivity.
Defined.

(** ** What the caller receives after a failed upload *)

Lemma ends_as_replied_without_requests {Remote : Type}
    (res : outcome unit * Remote * list event) :
  requests_of (trace_of res) = [] -> ends_as_replied res.
Proof.
  intros H t1 rq e t2 E _. rewrite E, requests_of_app in H. simpl in H.
  destruct (requests_of t1); discriminate.
Qed.

Lemma ends_as_replied_seq {Remote : Type} (m k : M Remote unit) (r : Remote) :
  ends_as_replied (m r) ->
  (forall r1, ends_as_replied (k r1)) ->
  ends_as_replied ((m ;;; k) r).
Proof.
  intros Hm Hk. unfold bind.
  destruct (m r) as [[[[] | e |] r1] tm] eqn:Em; auto.
  specialize (Hk r1). destruct (k r1) as [[o2 r2] tk].
  intros t1 rq e t2 E He. unfold trace_of in E; simpl in E.
  apply app_eq_app in E as [l [[E1 E2] | [E1 E2]]].
  - destruct l as [|ev l]; simpl in E2.
    + apply (Hk [] rq e t2); auto.
    + injection E2 as <- ->.
      pose proof (Hm t1 rq e l E1 He) as Ho.
      destruct (after_reply_failure e He) as [e' He'].
      unfold outcome_of in Ho. cbn [fst] in Ho. rewrite He' in Ho.
      discriminate Ho.
  - apply (Hk l rq e t2); auto.
Qed.

Lemma ends_as_replied_for_each {Remote A : Type} (xs : list A)
    (body : A -> M Remote unit) :
  (forall x r, ends_as_replied (body x r)) ->
  forall r, ends_as_replied (for_each xs body r).
Proof.
  intros Hb. induction xs as [|x xs IH]; intros r; simpl.
  - now apply ends_as_replied_without_requests.
  - apply ends_as_replied_seq; auto.
Qed.

Section FailedUpload.

Variable h : host.
Variable fs : filesystem.
Variable Remote : Type.
Variable http_request_safe : request -> Remote -> reply * Remote.
Variable get_databricks_host_creds : str -> host_creds.

Let upload := _copy_artifact h fs http_request_safe get_databricks_host_creds.
Let run := copy_artifacts h fs http_request_safe get_databricks_host_creds.

Lemma upload_ends_as_replied (local_file artifact_uri : str)
    (artifact_path : option str) (r : Remote) :
  ends_as_replied (upload local_file artifact_uri artifact_path r).
Proof.
  unfold upload. rewrite copy_artifact_unfold. cbv zeta.
  destruct (fs_stat_size fs local_file) as [[|n]|];
    [| destruct (fs_open_rb fs local_file) as [content|] |];
    try (apply ends_as_replied_without_requests; reflexivity).
  - destruct (http_request_safe _ r) as [rp r'].
    intros t1 rq e t2 E He. unfold trace_of, outcome_of in *.
    cbn [fst snd] in *.
    apply (request_split_unique [_]) in E as [_ ->];
      auto using after_reply_no_requests.
  - destruct (http_request_safe _ r) as [rp r'].
    intros t1 rq e t2 E He. unfold trace_of, outcome_of in *.
    cbn [fst snd] in *.
    apply (request_split_unique [_; _]) in E as [_ ->];
      [reflexivity | reflexivity | apply (after_reply_no_requests rp)].
Qed.

Lemma run_ends_as_replied (fuel : nat) (artifact_uri artifact_path : str)
    (r : Remote) :
  ends_as_replied (run fuel artifact_uri artifact_path r).
Proof.
  unfold run. rewrite copy_artifacts_unfold.
  destruct (os_walk fuel h fs _) as [entries|];
    [|now apply ends_as_replied_without_requests].
  apply ends_as_replied_for_each. intros entry r1. rewrite bind_lift.
  destruct (artifact_subdir_of _ _ _ _ _) as [e|subdir];
    [now apply ends_as_replied_without_requests|].
  apply ends_as_replied_for_each. intros name r2.
  apply upload_ends_as_replied.
Qed.

(** X4: an error of an upload that is no MlflowException (a connection
    error of the transport, say) is not caught anywhere: it ends the
    [copy_artifacts] run and it is that very error the caller receives. *)
Theorem transport_error_reaches_the_caller
    (fuel : nat) (artifact_uri artifact_path : str) (r : Remote)
    (t1 t2 : list event) (rq : request) (e : exn) :
  trace_of (run fuel artifact_uri artifact_path r)
  = t1 ++ EvRequest rq (Raises e) :: t2 ->
  (forall message, e <> MlflowException message) ->
  outcome_of (run fuel artifact_uri artifact_path r) = Raised e.
Proof.
  intros E He.
  assert (Hc : is_conflict e = false).
  { destruct e; try reflexivity. now destruct (He message). }
  rewrite (@run_ends_as_replied fuel artifact_uri artifact_path r
             t1 rq e t2 E Hc).
  destruct e; try reflexivity. now destruct (He message).
Qed.

(** X5: an MlflowException of an upload whose message does not contain
    "File already exists" never reaches the caller: whichever file it
    happens on, the [copy_artifacts] run ends with the NameError of the call
    of the unbound name [throw]. *)
Theorem mlflow_error_becomes_NameError
    (fuel : nat) (artifact_uri artifact_path : str) (r : Remote)
    (t1 t2 : list event) (rq : request) (message : str) :
  trace_of (run fuel artifact_uri artifact_path r)
  = t1 ++ EvRequest rq (Raises (MlflowException message)) :: t2 ->
  str_contains (lit "File already exists") message = false ->
  outcome_of (run fuel artifact_uri artifact_path r)
  = Raised (NameError (lit "throw")).
Proof.
  intros E Hc.
  rewrite (@run_ends_as_replied fuel artifact_uri artifact_path r
             t1 rq (MlflowException message) t2 E Hc).
  unfold after_reply. now rewrite Hc.
Qed.

End FailedUpload.

Lemma transport_error_reaches_the_caller_witness :
  outcome_of (copy_artifacts Posix sample_fs unreachable_http_request_safe
                             registry_creds 2 sample_uri sample_path [])
  = Raised (OtherError (lit "ConnectionError: connection refused")).
Proof.
  refine (@transport_error_reaches_the_caller
            Posix sample_fs dbfs_store unreachable_http_request_safe
            registry_creds 2 sample_uri sample_path []
            [copying_line Posix (lit "/dbfs/registry/run123/model/MLmodel")
                          sample_uri (Some (lit "model"));
             EvOpen (lit "/dbfs/registry/run123/model/MLmodel")]
            [EvClose (lit "/dbfs/registry/run123/model/MLmodel")]
            (upload_request Posix (registry_creds (lit "registry"))
               (lit "/dbfs/registry/run123/model/MLmodel") sample_uri
               (Some (lit "model"))
               (DataFile (lit "/dbfs/registry/run123/model/MLmodel")
                         (lit "flavors:")))
            (OtherError (lit "ConnectionError: connection refused")) _ _).
  - vm_compute. reflexivity.
  - intros message. discriminate.
Defined.

Lemma mlflow_error_becomes_NameError_witness :
  outcome_of (copy_artifacts Posix sample_fs denying_http_request_safe
                             registry_creds 2 sample_uri sample_path [])
  = Raised (NameError (lit "throw")).
Proof.
  refine (@mlflow_error_becomes_NameError
            Posix sample_fs dbfs_store denying_http_request_safe
            registry_creds 2 sample_uri sample_path []
            [copying_line Posix (lit "/dbfs/registry/run123/model/MLmodel")
                          sample_uri (Some (lit "model"));
             EvOpen (lit "/dbfs/registry/run123/model/MLmodel")]
            [EvClose (lit "/dbfs/registry/run123/model/MLmodel")]
            (upload_request Posix (registry_creds (lit "registry"))
               (lit "/dbfs/registry/run123/model/MLmodel") sample_uri
               (Some (lit "model"))
               (DataFile (lit "/dbfs/registry/run123/model/MLmodel")
                         (lit "flavors:")))
            (lit "PERMISSION_DENIED: token is not allowed to write") _ _).
  - vm_compute. reflexivity.
  - vm_compute. reflexivity.
Defined.

(** ** Runs that complete *)

Lemma for_each_returns {Remote A : Type} (xs : list A)
    (body : A -> M Remote unit) :
  (forall x r, In x xs -> outcome_of (body x r) = Returned tt) ->
  forall r, outcome_of (for_each xs body r) = Returned tt.
Proof.
  induction xs as [|x xs IH]; intros Hb r; simpl; [reflexivity|].
  unfold bind. pose proof (Hb x r (or_introl eq_refl)) as Hx.
  destruct (body x r) as [[o r1] t1]. unfold outcome_of in Hx. simpl in Hx.
  subst o.
  pose proof (IH (fun y r Hy => Hb y r (or_intror Hy)) r1) as Hr.
  now destruct (for_each xs body r1) as [[o2 r2] t2].
Qed.

Lemma after_reply_agreeable (rp : reply) :
  rp = Replied \/ (exists e, rp = Raises e /\ is_conflict e = true) ->
  fst (after_reply rp) = Returned tt.
Proof.
  intros [-> | (e & -> & He)]; [reflexivity|].
  now destruct (after_reply_conflict _ He).
Qed.

Section CompleteRun.

Variable h : host.
Variable fs : filesystem.
Variable Remote : Type.
Variable http_request_safe : request -> Remote -> reply * Remote.
Variable get_databricks_host_creds : str -> host_creds.

(** The registry answers every upload, or refuses it as existing. *)
Hypothesis registry_agrees : forall rq r,
  fst (http_request_safe rq r) = Replied
  \/ exists e, fst (http_request_safe rq r) = Raises e /\ is_conflict e = true.

Let creds := get_databricks_host_creds (lit "registry").
Let upload := _copy_artifact h fs http_request_safe get_databricks_host_creds.
Let run := copy_artifacts h fs http_request_safe get_databricks_host_creds.

Lemma upload_of_held_file_returns (local_file artifact_uri : str)
    (artifact_path : option str) (content : list ascii) (r : Remote) :
  fs_stat_size fs local_file = Some (List.length content) ->
  fs_open_rb fs local_file = Some content ->
  outcome_of (upload local_file artifact_uri artifact_path r) = Returned tt.
Proof.
  intros Hsize Hopen. unfold upload. rewrite copy_artifact_unfold. cbv zeta.
  rewrite Hsize. destruct content as [|c content]; simpl List.length.
  - pose proof (registry_agrees
                  (upload_request h (get_databricks_host_creds (lit "registry"))
                     local_file artifact_uri artifact_path (DataStr [])) r)
      as Hrp.
    destruct (http_request_safe _ r) as [rp r']. simpl in Hrp.
    unfold outcome_of. cbn [fst]. now apply after_reply_agreeable.
  - rewrite Hopen.
    pose proof (registry_agrees
                  (upload_request h (get_databricks_host_creds (lit "registry"))
                     local_file artifact_uri artifact_path
                     (DataFile local_file (c :: content))) r) as Hrp.
    destruct (http_request_safe _ r) as [rp r']. simpl in Hrp.
    unfold outcome_of. cbn [fst]. now apply after_reply_agreeable.
Qed.

(** X6: when the file system holds the tree [t] at the resolved local
    directory and the registry answers every upload or refuses it as
    existing, [copy_artifacts], given the fuel for the depth of [t], returns
    normally and has sent one request for every file of [t]. *)
Theorem copy_artifacts_completes
    (fuel : nat) (artifact_uri artifact_path : str) (t : tree) (r : Remote) :
  os_path_isabs h (fs_getcwd fs) = true ->
  realises h fs (local_dir_of artifact_uri artifact_path) t ->
  tree_depth t <= fuel ->
  outcome_of (run fuel artifact_uri artifact_path r) = Returned tt
  /\ List.length (requests_of (trace_of (run fuel artifact_uri
                                             artifact_path r)))
     = List.length (files_of [] t).
Proof.
  intros Hcwd Hr Hdepth.
  set (top := local_dir_of artifact_uri artifact_path) in *.
  change top with (path_at h top []) in Hr.
  pose proof (@os_walk_enough_fuel h fs top fuel [] t Hr Hdepth) as Hw.
  change (path_at h top []) with top in Hw.
  pose proof (@walk_chains_realised h fs top t [] (Forall_nil _) Hr) as Hall.
  rewrite Forall_forall in Hall.
  assert (Hret : outcome_of (run fuel artifact_uri artifact_path r)
                 = Returned tt).
  { unfold run. rewrite copy_artifacts_unfold. fold top. rewrite Hw.
    rewrite for_each_map. apply for_each_returns. intros ct ra Hin.
    destruct (Hall ct Hin) as [Hchain Hct]. destruct ct as [chain t'].
    unfold entry_of. cbn [fst snd] in *.
    rewrite artifact_subdir_of_walked;
      [| apply local_dir_rooted | exact Hcwd | exact Hchain].
    rewrite bind_lift, for_each_map. apply for_each_returns.
    intros f rb Hf.
    inversion Hct as [top' files subdirs Hscan Hfiles Hsub Etop Et]; subst.
    rewrite Forall_forall in Hfiles. cbn [tree_files] in Hf.
    destruct (Hfiles f Hf) as (_ & Hsize & Hopen).
    apply upload_of_held_file_returns with (content := snd f); assumption. }
  split; [exact Hret|].
  destruct (run fuel artifact_uri artifact_path r) as [[o r1] t1] eqn:E.
  unfold outcome_of in Hret. simpl in Hret. subst o. unfold trace_of. simpl.
  unfold run in E. rewrite copy_artifacts_unfold in E. fold top in E.
  rewrite Hw, for_each_map in E.
  rewrite files_of_walk_chains.
  erewrite for_each_requests; [| |exact E].
  - rewrite <- (length_map (expected_request h creds artifact_uri
                                             artifact_path)).
    rewrite map_flat_map_comm. reflexivity.
  - intros ct ra rb tb Hin Eb. destruct (Hall ct Hin) as [Hchain Hct].
    exact (@per_directory_requests h fs Remote http_request_safe
             get_databricks_host_creds artifact_uri artifact_path ct ra rb tb
             Hcwd Hchain Hct Eb).
Qed.

End CompleteRun.

Lemma dbfs_registry_agrees (rq : request) (r : dbfs_store) :
  fst (dbfs_http_request_safe rq r) = Replied
  \/ exists e, fst (dbfs_http_request_safe rq r) = Raises e
               /\ is_conflict e = true.
Proof.
  unfold dbfs_http_request_safe.
  destruct (dbfs_holds r (rq_endpoint rq)); [right|now left].
  eexists. split; [reflexivity|]. vm_compute. reflexivity.
Qed.

Lemma copy_artifacts_completes_witness :
  let res := copy_artifacts Posix sample_fs dbfs_http_request_safe
                            registry_creds 2 sample_uri sample_path [] in
  outcome_of res = Returned tt
  /\ List.length (requests_of (trace_of res)) = 2.
Proof.
  cbv zeta.
  apply (@copy_artifacts_completes
           Posix sample_fs dbfs_store dbfs_http_request_safe registry_creds
           dbfs_registry_agrees 2 sample_uri sample_path sample_tree []).
  - reflexivity.
  - exact sample_fs_holds_sample_tree.
  - vm_compute. lia.
Defined.

(** ** Sub-directories that are not walked *)

Lemma os_walk_step (fuel : nat) (h : host) (fs : filesystem) (top : str) :
  os_walk (S fuel) h fs top
  = match fs_scandir fs top with
    | None => Some []
    | Some (dirs, nondirs) =>
        match walk_subdirs h fs (os_walk fuel h fs) top dirs with
        | Some below => Some ((top, dirs, nondirs) :: below)
        | None => None
        end
    end.
Proof. reflexivity. Qed.

Lemma walk_subdirs_skipped (h : host) (fs : filesystem) (fuel : nat)
    (top : str) (dirs : list str) :
  (forall d, In d dirs ->
             fs_islink fs (os_path_join h top d) = true
             \/ fs_scandir fs (os_path_join h top d) = None) ->
  walk_subdirs h fs (os_walk (S fuel) h fs) top dirs = Some [].
Proof.
  induction dirs as [|d dirs IH]; intros H; [reflexivity|].
  cbn [walk_subdirs]. rewrite IH by (intros d' Hd'; apply H; now right).
  destruct (fs_islink fs (os_path_join h top d)) eqn:Hl; [reflexivity|].
  destruct (H d (or_introl eq_refl)) as [Hd|Hd]; [congruence|].
  now rewrite (os_walk_unlistable h fs fuel _ Hd).
Qed.

Section SkippedDirectories.

Variable h : host.
Variable fs : filesystem.
Variable Remote : Type.
Variable http_request_safe : request -> Remote -> reply * Remote.
Variable get_databricks_host_creds : str -> host_creds.

Let run := copy_artifacts h fs http_request_safe get_databricks_host_creds.

(** X7: sub-directories that are symbolic links or that cannot be listed
    are left out without a word: when the resolved local directory holds no
    file of its own and only such sub-directories, [copy_artifacts] returns
    normally and has done nothing, whatever lies under them. *)
Theorem unlistable_subdirectories_are_skipped
    (fuel : nat) (artifact_uri artifact_path : str) (dirs : list str)
    (r : Remote) :
  fs_scandir fs (local_dir_of artifact_uri artifact_path) = Some (dirs, []) ->
  (forall d, In d dirs ->
     fs_islink fs (os_path_join h (local_dir_of artifact_uri artifact_path) d)
     = true
     \/ fs_scandir fs (os_path_join h (local_dir_of artifact_uri
                                                    artifact_path) d)
        = None) ->
  run (S (S fuel)) artifact_uri artifact_path r = (Returned tt, r, []).
Proof.
  intros Hscan Hdirs. unfold run. rewrite copy_artifacts_unfold.
  rewrite os_walk_step, Hscan, walk_subdirs_skipped by exact Hdirs.
  apply for_each_silent. intros entry ra [<-|[]]. cbn [fst snd].
  rewrite bind_lift. unfold artifact_subdir_of. rewrite str_eqb_refl.
  reflexivity.
Qed.

End SkippedDirectories.

Lemma unlistable_subdirectories_are_skipped_witness :
  copy_artifacts Posix locked_fs dbfs_http_request_safe registry_creds
                 2 sample_uri sample_path []
  = (Returned tt, [], []).
Proof.
  apply (@unlistable_subdirectories_are_skipped
           Posix locked_fs dbfs_store dbfs_http_request_safe registry_creds
           0 sample_uri sample_path [lit "data"] []).
  - reflexivity.
  - intros d [<-|[]]. right. reflexivity.
Defined.

(** ** Endpoints and local paths *)

Lemma endswith_slash_is_sep (s : str) :
  endswith_chr s chr_slash = ends_with_sep Posix s.
Proof. reflexivity. Qed.

(** On a POSIX host the path of a file below [top]: [top] without its
    closing slash, then every name behind a slash. *)
Lemma posix_path_at_form (top n : str) (rest : list str) :
  nonempty top = true ->
  Forall (fun w => clean Posix w = true) (n :: rest) ->
  path_at Posix top (n :: rest)
  = (if ends_with_sep Posix top then removelast top else top)
    ++ flat_map (fun w => [chr_slash] ++ w) (n :: rest).
Proof.
  intros Htop Hall. inversion Hall as [|? ? Hn Hrest]; subst.
  unfold path_at. cbn [fold_left flat_map].
  rewrite os_path_join_name by exact Hn. rewrite Htop. cbn [negb orb].
  destruct (snoc_view top) as [-> | (q & x & ->)]; [discriminate|].
  rewrite ends_with_sep_snoc.
  destruct (is_sep Posix x) eqn:Hx.
  - apply Ascii.eqb_eq in Hx. subst x. rewrite removelast_last.
    rewrite fold_join_names; auto.
    + now rewrite <- !app_assoc.
    + now destruct q.
    + now apply ends_with_sep_app_name.
  - rewrite fold_join_names; auto.
    + now rewrite <- !app_assoc.
    + now destruct q.
    + change ((q ++ [x]) ++ [os_sep Posix] ++ n)
        with ((q ++ [x]) ++ ([os_sep Posix] ++ n)).
      rewrite app_assoc. now apply ends_with_sep_app_name.
Qed.

Lemma posix_artifact_subdir (cwd top artifact_path : str)
    (chain : list str) :
  starts_with_sep Posix top = true ->
  Forall (fun n => valid_name Posix n = true) chain ->
  artifact_subdir_of Posix cwd top artifact_path (path_at Posix top chain)
  = inr (match chain with
         | [] => artifact_path
         | _ :: _ => posixpath_join artifact_path (join_with (lit "/") chain)
         end).
Proof.
  intros Htop Hall. unfold artifact_subdir_of.
  assert (Hclean : Forall (fun n => clean Posix n = true) chain).
  { eapply Forall_impl; [|exact Hall]. intros n. apply clean_of_valid. }
  destruct chain as [|c cs].
  - unfold path_at. simpl. now rewrite str_eqb_refl.
  - rewrite path_at_differs by (auto; discriminate). cbn [negb].
    rewrite relpath_of_walked_directory by (auto; discriminate).
    reflexivity.
Qed.

(** X8: on a POSIX host the endpoint [copy_artifacts] posts a file of the
    walk to is, character for character, the local path of that file: the
    DBFS path of the source workspace is kept in the registry workspace. *)
Theorem posix_endpoint_is_the_local_path
    (cwd artifact_uri artifact_path : str) (chain : list str) (name : str) :
  Forall (fun n => valid_name Posix n = true) chain ->
  valid_name Posix name = true ->
  let dirpath := path_at Posix (local_dir_of artifact_uri artifact_path)
                         chain in
  let local_file := os_path_join Posix dirpath name in
  exists artifact_subdir,
    artifact_subdir_of Posix cwd (local_dir_of artifact_uri artifact_path)
                       (str_or_empty artifact_path) dirpath
    = inr artifact_subdir
    /\ http_endpoint_of Posix local_file artifact_uri (Some artifact_subdir)
       = local_file.
Proof.
  intros Hchain Hname. cbv zeta. eexists. split.
  - apply posix_artifact_subdir; [apply local_dir_rooted|exact Hchain].
  - rewrite str_or_empty_id, upload_endpoint_of_file by assumption.
    rewrite <- path_at_snoc. unfold destination_endpoint.
    assert (Hall : Forall (fun w => clean Posix w = true) (chain ++ [name])).
    { apply Forall_app. split.
      - eapply Forall_impl; [|exact Hchain]. intros n. apply clean_of_valid.
      - constructor; [now apply clean_of_valid|constructor]. }
    destruct (chain ++ [name]) as [|n rest] eqn:E;
      [now destruct chain|].
    rewrite posix_path_at_form by (auto; reflexivity).
    rewrite join_with_cons. unfold destination_root.
    now rewrite endswith_slash_is_sep.
Qed.

Lemma posix_endpoint_is_the_local_path_witness :
  http_endpoint_of Posix (lit "/dbfs/registry/run123/model/data/model.h5")
                   sample_uri (Some (lit "model/data"))
  = lit "/dbfs/registry/run123/model/data/model.h5".
Proof.
  destruct (@posix_endpoint_is_the_local_path
              (lit "/databricks/driver") sample_uri sample_path
              [lit "data"] (lit "model.h5"))
    as (subdir & Hsub & Hep).
  - repeat constructor.
  - reflexivity.
  - vm_compute in Hsub. injection Hsub as <-. exact Hep.
Defined.

Lemma join_with_slash_inj (x y : str) (xs ys : list str) :
  Forall (fun w => clean Posix w = true) (x :: xs) ->
  Forall (fun w => clean Posix w = true) (y :: ys) ->
  join_with [chr_slash] (x :: xs) = join_with [chr_slash] (y :: ys) ->
  x :: xs = y :: ys.
Proof.
  intros Hx Hy E.
  assert (Hfree : forall l, Forall (fun w => clean Posix w = true) l ->
            Forall (fun w => forallb (fun c => negb (is_sep Posix c)) w = true)
                   l).
  { intros l Hl. eapply Forall_impl; [|exact Hl]. intros w Hw.
    now destruct (clean_facts _ _ Hw) as (_ & _ & _ & _ & Hf). }
  rewrite <- (@split_on_join (is_sep Posix) chr_slash x xs eq_refl
               (Hfree _ Hx)).
  rewrite <- (@split_on_join (is_sep Posix) chr_slash y ys eq_refl
               (Hfree _ Hy)).
  now rewrite E.
Qed.

(** X9: no two files of a walk are posted to the same endpoint, on either
    host: the endpoints computed for two files are equal only when the files
    have the same chain of sub-directories and the same name. *)
Theorem distinct_files_have_distinct_endpoints
    (h : host) (cwd artifact_uri artifact_path : str)
    (chain chain' : list str) (name name' subdir subdir' : str) :
  os_path_isabs h cwd = true ->
  Forall (fun n => valid_name h n = true) chain ->
  Forall (fun n => valid_name h n = true) chain' ->
  valid_name h name = true ->
  valid_name h name' = true ->
  let top := local_dir_of artifact_uri artifact_path in
  artifact_subdir_of h cwd top (str_or_empty artifact_path)
                     (path_at h top chain) = inr subdir ->
  artifact_subdir_of h cwd top (str_or_empty artifact_path)
                     (path_at h top chain') = inr subdir' ->
  http_endpoint_of h (os_path_join h (path_at h top chain) name)
                   artifact_uri (Some subdir)
  = http_endpoint_of h (os_path_join h (path_at h top chain') name')
                     artifact_uri (Some subdir') ->
  chain = chain' /\ name = name'.
Proof.
  intros Hcwd Hchain Hchain' Hname Hname'. cbv zeta.
  rewrite !artifact_subdir_of_walked, str_or_empty_id
    by auto using local_dir_rooted.
  intros E1 E2. injection E1 as <-. injection E2 as <-.
  rewrite !upload_endpoint_of_file by assumption.
  unfold destination_endpoint. change (lit "/") with [chr_slash].
  assert (Hall : forall c n,
             Forall (fun n => valid_name h n = true) c ->
             valid_name h n = true ->
             Forall (fun w => clean Posix w = true) (c ++ [n])).
  { intros c n Hc Hn. apply Forall_app. split.
    - eapply Forall_impl; [|exact Hc]. intros w. apply clean_posix_of_valid.
    - constructor; [now apply (clean_posix_of_valid h)|constructor]. }
  pose proof (Hall chain name Hchain Hname) as H1.
  pose proof (Hall chain' name' Hchain' Hname') as H2.
  destruct (chain ++ [name]) as [|x xs] eqn:Ex; [now destruct chain|].
  destruct (chain' ++ [name']) as [|y ys] eqn:Ey; [now destruct chain'|].
  change (join_with [chr_slash]
            (destination_root artifact_uri artifact_path :: x :: xs))
    with (destination_root artifact_uri artifact_path
          ++ chr_slash :: join_with [chr_slash] (x :: xs)).
  change (join_with [chr_slash]
            (destination_root artifact_uri artifact_path :: y :: ys))
    with (destination_root artifact_uri artifact_path
          ++ chr_slash :: join_with [chr_slash] (y :: ys)).
  intros E. apply app_inv_head in E. injection E as E.
  apply (join_with_slash_inj H1 H2) in E. rewrite <- Ex, <- Ey in E.
  now apply app_inj_tail in E.
Qed.

Lemma distinct_files_have_distinct_endpoints_witness :
  http_endpoint_of Posix (lit "/dbfs/registry/run123/model/MLmodel")
                   sample_uri (Some (lit "model"))
  <> http_endpoint_of Posix (lit "/dbfs/registry/run123/model/data/model.h5")
                      sample_uri (Some (lit "model/data")).
Proof.
  intros E.
  destruct (@distinct_files_have_distinct_endpoints
              Posix (lit "/databricks/driver") sample_uri sample_path
              [] [lit "data"] (lit "MLmodel") (lit "model.h5")
              (lit "model") (lit "model/data"))
    as [Hc _]; try reflexivity; try exact E.
  - constructor.
  - repeat constructor.
  - discriminate Hc.
Defined.

(** X10: for a directory of the walk the computation of [artifact_subdir]
    never raises, neither the ValueError of [relpath] nor the exception of
    [relative_path_to_artifact_path], on a POSIX and on a Windows host: it
    gives [artifact_path] for the top directory and, below it,
    [artifact_path] joined by [posixpath.join] to the chain of
    sub-directories with forward slashes. *)
Theorem artifact_subdir_never_raises
    (h : host) (cwd artifact_uri artifact_path : str) (chain : list str) :
  os_path_isabs h cwd = true ->
  Forall (fun n => valid_name h n = true) chain ->
  artifact_subdir_of h cwd (local_dir_of artifact_uri artifact_path)
    (str_or_empty artifact_path)
    (path_at h (local_dir_of artifact_uri artifact_path) chain)
  = inr (match chain with
         | [] => artifact_path
         | _ :: _ => posixpath_join artifact_path (join_with (lit "/") chain)
         end).
Proof.
  intros Hcwd Hall. rewrite str_or_empty_id.
  apply artifact_subdir_of_walked; auto using local_dir_rooted.
Qed.

Lemma artifact_subdir_never_raises_witness :
  artifact_subdir_of Nt (lit "\databricks\driver")
    (lit "/dbfs/registry/run123/model") (lit "model")
    (lit "/dbfs/registry/run123/model\data\variables")
  = inr (lit "model/data/variables").
Proof.
  apply (@artifact_subdir_never_raises
           Nt (lit "\databricks\driver") sample_uri sample_path
           [lit "data"; lit "variables"]).
  - reflexivity.
  - repeat constructor.
Defined.

(** ** The source of the model version *)

Lemma rstrip_nothing (c : ascii) (s : str) :
  endswith_chr s c = false -> rstrip c s = s.
Proof.
  unfold endswith_chr, rstrip. intros H.
  destruct (rev s) as [|x tl] eqn:E.
  - simpl. apply (f_equal (@rev ascii)) in E.
    now rewrite rev_involutive in E.
  - simpl. rewrite Ascii.eqb_sym, H. rewrite <- E. apply rev_involutive.
Qed.

Lemma strip_prefix_app (prefix s rest : str) :
  startswith s prefix = true ->
  strip_prefix (s ++ rest) prefix = strip_prefix s prefix ++ rest.
Proof.
  intros H. unfold strip_prefix. rewrite H.
  assert (G : startswith (s ++ rest) prefix = true
              /\ skipn (List.length prefix) (s ++ rest)
                 = skipn (List.length prefix) s ++ rest).
  { revert s H. induction prefix as [|p prefix IH]; intros s H.
    - now split.
    - destruct s as [|c s]; [discriminate|]. simpl in *.
      apply andb_true_iff in H as [Hc Hs]. rewrite Hc.
      now apply IH. }
  destruct G as [-> ->]. reflexivity.
Qed.

(** X11: for an artifact root of the form [dbfs:/...] without a closing
    slash and a relative path without an opening slash, the [source] the
    model version is registered with names the directory the artifacts were
    copied from and to: the walked directory is [/dbfs/] followed by
    [source] without its [dbfs:/]. *)
Theorem model_source_names_the_copied_directory
    (artifact_uri artifact_path : str) :
  startswith artifact_uri (lit "dbfs:/") = true ->
  endswith_chr artifact_uri chr_slash = false ->
  startswith artifact_path (lit "/") = false ->
  local_dir_of artifact_uri artifact_path
  = lit "/dbfs/"
    ++ strip_prefix (model_source artifact_uri artifact_path) (lit "dbfs:/").
Proof.
  intros Hscheme Hend Hrel.
  unfold local_dir_of, _get_dbfs_endpoint, model_source.
  rewrite (rstrip_nothing _ _ Hend), (strip_prefix_no_slash _ Hrel).
  assert (Hs : starts_with_sep Posix artifact_path = false).
  { destruct artifact_path as [|c p]; [reflexivity|].
    change (startswith (c :: p) (lit "/"))
      with (Ascii.eqb c chr_slash && true) in Hrel.
    now rewrite andb_true_r in Hrel. }
  rewrite (posixpath_join_relative _ _ Hs).
  rewrite <- endswith_slash_is_sep, Hend.
  destruct artifact_uri as [|c u]; [discriminate|]. cbn [nonempty negb andb].
  now rewrite (strip_prefix_app _ _ (chr_slash :: artifact_path) Hscheme).
Qed.

Lemma model_source_names_the_copied_directory_witness :
  model_source sample_uri sample_path = lit "dbfs:/registry/run123/model"
  /\ local_dir_of sample_uri sample_path
     = lit "/dbfs/"
       ++ strip_prefix (model_source sample_uri sample_path) (lit "dbfs:/").
Proof.
  split; [reflexivity|].
  apply model_source_names_the_copied_directory; reflexivity.
Defined.

(** X12: with an opening slash on [artifact_path] the two part ways:
    [posixpath.join] then drops the artifact root from [source], while
    [copy_artifacts] strips the slash and still walks the directory under
    the root; so, unless the root is empty once stripped, [source] does not
    name the copied directory. *)
Theorem leading_slash_detaches_the_source (artifact_uri p : str) :
  strip_prefix (rstrip chr_slash artifact_uri) (lit "dbfs:/") <> [] ->
  model_source artifact_uri (chr_slash :: p) = chr_slash :: p
  /\ local_dir_of artifact_uri (chr_slash :: p)
     = lit "/dbfs/"
       ++ strip_prefix (rstrip chr_slash artifact_uri) (lit "dbfs:/")
       ++ chr_slash :: p
  /\ local_dir_of artifact_uri (chr_slash :: p)
     <> lit "/dbfs/"
        ++ strip_prefix (model_source artifact_uri (chr_slash :: p))
                        (lit "dbfs:/").
Proof.
  intros HR. split; [reflexivity|]. split; [reflexivity|].
  change (model_source artifact_uri (chr_slash :: p)) with (chr_slash :: p).
  change (strip_prefix (chr_slash :: p) (lit "dbfs:/")) with (chr_slash :: p).
  unfold local_dir_of, _get_dbfs_endpoint. rewrite strip_prefix_slash_cons.
  set (R := strip_prefix (rstrip chr_slash artifact_uri) (lit "dbfs:/")) in *.
  intros E. apply app_inv_head in E.
  apply (f_equal (@List.length ascii)) in E.
  change (lit "/" ++ chr_slash :: p) with (chr_slash :: chr_slash :: p) in E.
  change (lit "/" ++ p) with (chr_slash :: p) in E.
  rewrite length_app in E. cbn [List.length] in E.
  destruct R; [now apply HR | cbn [List.length] in E; lia].
Qed.

Lemma leading_slash_detaches_the_source_witness :
  model_source sample_uri (lit "/model") = lit "/model"
  /\ local_dir_of sample_uri (lit "/model")
     = lit "/dbfs/registry/run123/model".
Proof.
  destruct (@leading_slash_detaches_the_source sample_uri (lit "model"))
    as (Hs & Hd & _).
  - vm_compute. discriminate.
  - split; [exact Hs | exact Hd].
Defined.

(** X13: the opening slash [_get_dbfs_endpoint] strips is one slash and no
    more: prefixing a relative path with a slash leaves the endpoint as it
    is exactly when the path does not already begin with one. *)
Theorem one_leading_slash_only (artifact_uri p : str) :
  _get_dbfs_endpoint artifact_uri (chr_slash :: p)
  = _get_dbfs_endpoint artifact_uri p
  <-> startswith p (lit "/") = false.
Proof.
  unfold _get_dbfs_endpoint. rewrite strip_prefix_slash_cons. split.
  - intros E. do 3 apply app_inv_head in E.
    destruct (startswith p (lit "/")) eqn:Hp; [|reflexivity].
    unfold strip_prefix in E. rewrite Hp in E.
    apply (f_equal (@List.length ascii)) in E.
    rewrite length_skipn in E. simpl in E.
    destruct p; [discriminate Hp|]. simpl in E. lia.
  - intros Hp. now rewrite (strip_prefix_no_slash _ Hp).
Qed.

(** ** Registering the model *)

Section RegistrationProperties.

Variable Registry : Type.
Variable create_registered_model :
  str -> Registry -> option client_exception * Registry.
Variable create_model_version :
  str -> str -> str -> Registry -> (client_exception + str) * Registry.

Let cell := register_model create_registered_model create_model_version.

Lemma create_and_print_version_calls (model_name source run_id : str)
    (g : Registry) :
  let res := create_and_print_version create_model_version
               model_name source run_id g in
  version_calls (snd res) = [(model_name, source, run_id)]
  /\ fst (fst res)
     = match fst (create_model_version model_name source run_id g) with
       | inr mv => inr mv
       | inl e => inl (CellRaised e)
       end.
Proof.
  cbv zeta. unfold create_and_print_version.
  destruct (create_model_version model_name source run_id g) as [[e|mv] g'];
    now split.
Qed.

(** X14: a registered model that is already there does not stop the cell:
    when [create_registered_model] returns, or raises an error whose code is
    RESOURCE_ALREADY_EXISTS, the cell goes on to call [create_model_version]
    once, with the model name, the source
    [posixpath.join(artifact_uri, artifact_path)] and the run, on the state
    the first call left; the cell ends as that call ends. *)
Theorem existing_model_is_tolerated
    (model_name artifact_uri artifact_path run_id : str) (g : Registry) :
  fst (create_registered_model model_name g) = None
  \/ (exists message,
         fst (create_registered_model model_name g)
         = Some (RestException (lit "RESOURCE_ALREADY_EXISTS") message)) ->
  let res := cell model_name artifact_uri artifact_path run_id g in
  version_calls (snd res)
  = [(model_name, model_source artifact_uri artifact_path, run_id)]
  /\ fst (fst res)
     = match fst (create_model_version
                    model_name (model_source artifact_uri artifact_path)
                    run_id (snd (create_registered_model model_name g))) with
       | inr mv => inr mv
       | inl e => inl (CellRaised e)
       end.
Proof.
  intros H. cbv zeta. unfold cell, register_model. cbv zeta.
  destruct (create_registered_model model_name g) as [o g1]. simpl in H.
  cbn [snd].
  pose proof (create_and_print_version_calls
                model_name (model_source artifact_uri artifact_path)
                run_id g1) as Hv.
  cbv zeta in Hv.
  destruct H as [-> | [message ->]].
  - destruct (create_and_print_version _ _ _ _ g1) as [[res g2] t].
    exact Hv.
  - change (str_eqb (lit "RESOURCE_ALREADY_EXISTS")
                    (lit "RESOURCE_ALREADY_EXISTS")) with true. cbv iota.
    destruct (create_and_print_version _ _ _ _ g1) as [[res g2] t].
    exact Hv.
Qed.


End RegistrationProperties.

Lemma existing_model_is_tolerated_witness :
  let res := register_model sample_create_registered_model
               sample_create_model_version (lit "my_remote_model")
               sample_uri sample_path (lit "run123")
               [lit "my_remote_model"] in
  version_calls (snd res)
  = [(lit "my_remote_model", lit "dbfs:/registry/run123/model", lit "run123")]
  /\ fst (fst res) = inr (lit "1").
Proof.
  cbv zeta.
  apply (@existing_model_is_tolerated
           registry_state sample_create_registered_model
           sample_create_model_version (lit "my_remote_model")
           sample_uri sample_path (lit "run123") [lit "my_remote_model"]).
  right. eexists. vm_compute. reflexivity.
Defined.

